(** * bnGBA: the Game Boy architecture plugin, [GB] in [__init__.py]

    A shallow embedding of the three methods of class [GB] that decode an
    instruction: [perform_get_instruction_info] (length and branch edges),
    [get_token] and [perform_get_instruction_text] (display tokens), and of
    the loader [GBView]: [is_valid_for_data], [init] and the address
    queries.

    The plugin is Python 2 code: [data] is a byte string, [data[0]] is a
    one-byte string, integers are unbounded.  Bytes are [Byte.byte], integers
    are [Z] (nothing in the source wraps them), exceptions that escape a
    method are the [Raise] results of a small error monad, and the opcode
    dictionary loaded from [opcodes.json] is a [gmap] keyed by the strings
    ["0x%x" % opcode]. *)

From Stdlib Require Import ZArith Lia Bool.
From Stdlib Require Import Strings.String Strings.Ascii Strings.Byte Strings.HexString.
From stdpp Require Import gmap strings list fin_maps.

Open Scope string_scope.
Open Scope Z_scope.

(** ** Python primitives used by the plugin *)

Module Py.

(** Exceptions that the methods do not catch.  [KeyError] is caught at both
    places where it can be raised and so never escapes. *)
Inductive exn : Type :=
  | IndexError
  | StructError.

Inductive result (A : Type) : Type :=
  | Ok (a : A)
  | Raise (e : exn).

Arguments Ok {A} a.
Arguments Raise {A} e.

Definition bind {A B : Type} (r : result A) (k : A -> result B) : result B :=
  match r with
  | Ok a => k a
  | Raise e => Raise e
  end.

Definition byte_val (b : byte) : Z := Z.of_N (Byte.to_N b).

(** [s[i]] on a byte string: the one-byte string at [i], or [IndexError]. *)
Definition index (s : list byte) (i : nat) : result (list byte) :=
  match s !! i with
  | Some b => Ok [b]
  | None => Raise IndexError
  end.

(** [s[i:j]] for [0 <= i <= j]: never raises, may come back short. *)
Definition slice (s : list byte) (i j : nat) : list byte :=
  take (j - i) (drop i s).

(** [struct.unpack('<B', s)[0]]: [s] must hold exactly one byte. *)
Definition unpack_B (s : list byte) : result Z :=
  match s with
  | [b] => Ok (byte_val b)
  | _ => Raise StructError
  end.

(** [struct.unpack('<H', s)[0]]: [s] must hold exactly two bytes, low first. *)
Definition unpack_H (s : list byte) : result Z :=
  match s with
  | [lo; hi] => Ok (Z.lor (byte_val lo) (Z.shiftl (byte_val hi) 8))
  | _ => Raise StructError
  end.

(** ["%x" % n]: lower-case hexadecimal without padding. *)
Definition fmt_x (n : Z) : string :=
  match n with
  | Z0 => "0"
  | Zpos p => HexString.Raw.of_pos p ""
  | Zneg p => String "-" (HexString.Raw.of_pos p "")
  end.

Fixpoint zeros (k : nat) : string :=
  match k with
  | O => ""
  | S k' => String "0" (zeros k')
  end.

(** ["%.<prec>x" % n] for [n >= 0]: at least [prec] digits, zero padded. *)
Definition fmt_x_prec (prec : nat) (n : Z) : string :=
  let digits := fmt_x n in
  (zeros (prec - String.length digits) ++ digits)%string.

Definition lower_ascii (c : ascii) : ascii :=
  let n := N_of_ascii c in
  if ((65 <=? n) && (n <=? 90))%N then ascii_of_N (n + 32) else c.

(** [s.lower()] on ASCII text. *)
Fixpoint lower (s : string) : string :=
  match s with
  | EmptyString => EmptyString
  | String c s' => String (lower_ascii c) (lower s')
  end.

(** The regular expressions of [get_token] are alternations of literal
    words; such a pattern is given by the list of its words.  [re_match]
    anchors at the start of the subject, [re_search] tries every position.
    Both return whether a match object was found ([is not None]). *)
Definition re_match (alts : list string) (s : string) : bool :=
  existsb (fun p => String.prefix p s) alts.

Fixpoint re_search (alts : list string) (s : string) : bool :=
  re_match alts s ||
  match s with
  | EmptyString => false
  | String _ s' => re_search alts s'
  end.

End Py.

Export Py.

(** The error monad is used through stdpp's [x ← r; k] notation. *)
#[global] Instance result_ret : MRet result := fun A a => Ok a.
#[global] Instance result_bind : MBind result := fun A B k r => bind r k.

(** ** The host API objects the plugin builds *)

(** [BranchType] of the host API. *)
Inductive BranchType : Type :=
  | UnconditionalBranch
  | FalseBranch
  | TrueBranch
  | CallDestination
  | FunctionReturn
  | SystemCall
  | IndirectBranch
  | UnresolvedBranch.

(** One call of [add_branch]: the kind and the target the caller passed, if
    any. *)
Record InstructionBranch : Type := mkBranch {
  br_type : BranchType;
  br_target : option Z
}.

Record InstructionInfo : Type := mkInfo {
  ii_length : Z;
  ii_branches : list InstructionBranch
}.

Definition new_InstructionInfo : InstructionInfo := mkInfo 0 [].

Definition set_length (i : InstructionInfo) (n : Z) : InstructionInfo :=
  mkInfo n (ii_branches i).

Definition add_branch (i : InstructionInfo) (t : BranchType) (target : option Z)
  : InstructionInfo :=
  mkInfo (ii_length i) (ii_branches i ++ [mkBranch t target])%list.

(** The members of [InstructionTextTokenType] that the plugin uses. *)
Inductive InstructionTextTokenType : Type :=
  | InstructionToken
  | OperandSeparatorToken
  | IntegerToken
  | PossibleAddressToken
  | RegisterToken.

(** [InstructionTextToken(type, text[, value])]. *)
Record InstructionTextToken : Type := mkToken {
  tok_type : InstructionTextTokenType;
  tok_text : string;
  tok_value : option Z
}.

(** ** The opcode table *)

(** One entry of the ["unprefixed"] object of [opcodes.json], with the four
    keys the plugin reads.  [operand1] and [operand2] may be absent. *)
Record op_info : Type := mkOp {
  mnemonic : string;
  op_length : Z;
  operand1 : option string;
  operand2 : option string
}.

(** The key under which [opcode] is looked up: ["0x%x" % opcode]. *)
Definition opcode_key (opcode : Z) : string := ("0x" ++ fmt_x opcode)%string.

(** The three patterns of [get_token]. *)
Definition re_8 : list string := ["d8"; "r8"; "a8"].
Definition re_16 : list string := ["d16"; "r16"; "a16"].
Definition re_reg : list string :=
  ["A"; "B"; "C"; "D"; "E"; "F"; "H"; "L"; "SP"; "PC"].

(** [addr-(~arg&0xff)+1], the backward relative-jump target. *)
Definition jr_back (addr arg : Z) : Z :=
  addr - Z.land (Z.lnot arg) 0xff + 1.

(** The [JR] arm of [perform_get_instruction_info], after [arg] is read. *)
Definition jr_branches (i_info : InstructionInfo) (opcode addr arg : Z)
  : InstructionInfo :=
  if (opcode =? 0x28) || (opcode =? 0x38) then
    let i1 := add_branch i_info TrueBranch (Some (addr + 2 + arg)) in
    add_branch i1 FalseBranch (Some (addr + 2))
  else if (opcode =? 0x20) || (opcode =? 0x30) then
    let i1 := add_branch i_info TrueBranch (Some (addr + 2)) in
    add_branch i1 FalseBranch (Some (jr_back addr arg))
  else
    add_branch i_info UnconditionalBranch (Some (jr_back addr arg)).

(** The [JP] arm for an opcode other than [0xe9], after [arg] is read. *)
Definition jp_branches (i_info : InstructionInfo) (opcode addr arg : Z)
  : InstructionInfo :=
  if (opcode =? 0xca) || (opcode =? 0xda) then
    let i1 := add_branch i_info TrueBranch (Some arg) in
    add_branch i1 FalseBranch (Some (addr + 3))
  else if (opcode =? 0xc0) || (opcode =? 0xd0) then
    let i1 := add_branch i_info TrueBranch (Some (addr + 3)) in
    add_branch i1 FalseBranch (Some arg)
  else
    add_branch i_info UnconditionalBranch (Some arg).

(** ** Class [GB] *)

Section GB.

(** [self.opcodes]: the table is data of the repository that is read at
    class-definition time; the methods are embedded for any table. *)
Variable opcodes : gmap string op_info.

Definition perform_get_instruction_info (data : list byte) (addr : Z)
  : result (option InstructionInfo) :=
  b0 ← index data 0;
  opcode ← unpack_B b0;
  let i_info := new_InstructionInfo in
  match opcodes !! opcode_key opcode with
  | None => Ok None
  | Some op =>
    let i_info := set_length i_info (op_length op) in
    (* [op_info is not None] holds here: [op_info['length']] was just read *)
    if (mnemonic op =? "JR")%string then
      arg ← unpack_B (slice data 1 2);
      Ok (Some (jr_branches i_info opcode addr arg))
    else if (mnemonic op =? "JP")%string then
      if opcode =? 0xe9 then
        Ok (Some (add_branch i_info UnconditionalBranch (Some 0xdead)))
      else
        arg ← unpack_H (slice data 1 3);
        Ok (Some (jp_branches i_info opcode addr arg))
    else if (mnemonic op =? "RET")%string then
      Ok (Some (add_branch i_info FunctionReturn None))
    else if (mnemonic op =? "CALL")%string then
      arg ← unpack_H (slice data 1 3);
      Ok (Some (add_branch i_info CallDestination (Some arg)))
    else
      Ok (Some i_info)
  end.

Definition get_token (operand : string) (data : list byte)
  : result InstructionTextToken :=
  if re_search re_8 operand then
    b1 ← index data 1;
    value ← unpack_B b1;
    if re_match re_8 operand then
      Ok (mkToken IntegerToken ("0x" ++ fmt_x_prec 2 value)%string (Some value))
    else
      Ok (mkToken PossibleAddressToken ("0x" ++ fmt_x_prec 4 value)%string (Some value))
  else if re_search re_16 operand then
    value ← unpack_H (slice data 1 3);
    if re_match re_16 operand then
      Ok (mkToken IntegerToken ("0x" ++ fmt_x_prec 4 value)%string (Some value))
    else
      Ok (mkToken PossibleAddressToken ("0x" ++ fmt_x_prec 4 value)%string (Some value))
  else if re_search re_reg operand then
    if re_match re_reg operand then
      Ok (mkToken RegisterToken (lower operand) None)
    else
      Ok (mkToken RegisterToken (lower operand) None)
  else
    Ok (mkToken RegisterToken (lower operand) None).

Definition perform_get_instruction_text (data : list byte) (addr : Z)
  : result (option (list InstructionTextToken * Z)) :=
  let tokens := [] in
  b0 ← index data 0;
  opcode ← unpack_B b0;
  match opcodes !! opcode_key opcode with
  | None => Ok None
  | Some op =>
    let tokens := (tokens ++ [mkToken InstructionToken (lower (mnemonic op)) None])%list in
    tokens ←
      match operand1 op with
      | Some o1 =>
        let tokens := (tokens ++ [mkToken OperandSeparatorToken "    " None])%list in
        t1 ← get_token o1 data;
        let tokens := (tokens ++ [t1])%list in
        match operand2 op with
        | Some o2 =>
          let tokens := (tokens ++ [mkToken OperandSeparatorToken ", " None])%list in
          t2 ← get_token o2 data;
          Ok (tokens ++ [t2])%list
        | None => Ok tokens
        end
      | None => Ok tokens
      end;
    Ok (Some (tokens, op_length op))
  end.

End GB.

(** ** Class [GBView]

    The loader of the same file.  The view reads the raw file through the
    host call [read]; what [init] asks of the host ([add_auto_segment],
    [add_auto_section], [define_auto_symbol], [add_entry_point]) is kept as
    the list of these calls, in the order of the source. *)

#[global] Instance byte_eq_dec : EqDecision byte := Byte.byte_eq_dec.

Module GBView.

Definition ROM_SIG_OFFSET : Z := 0x104.
Definition ROM_SIG_LEN : Z := 0x30.
Definition ROM_SIG : list byte :=
  [
    xce; xed; x66; x66; xcc; x0d; x00; x0b; x03; x73; x00; x83; x00; x0c;
    x00; x0d; x00; x08; x11; x1f; x88; x89; x00; x0e; xdc; xcc; x6e; xe6;
    xdd; xdd; xd9; x99; xbb; xbb; x67; x63; x6e; x0e; xec; xcc; xdd; xdc;
    x99; x9f; xbb; xb9; x33; x3e ].
Definition HDR_OFFSET : Z := 0x134.
Definition HDR_SIZE : Z := 0x1C.
Definition START_ADDR : Z := 0x100.
Definition ROM0_SIZE : Z := 0x4000.
Definition ROM0_OFFSET : Z := 0.
Definition ROM1_SIZE : Z := 0x4000.
Definition ROM1_OFFSET : Z := 0x4000.

(** [view.read(offset, length)] on the raw file: the bytes from [offset] on,
    at most [length] of them, fewer at the end of the file. *)
Definition read (raw : list byte) (offset length : Z) : list byte :=
  take (Z.to_nat length) (drop (Z.to_nat offset) raw).

(** [s[i:]]. *)
Definition slice_from (s : list byte) (i : nat) : list byte := drop i s.

(** [struct.unpack("H", s)[0]]: two bytes in the byte order of the machine
    that runs the plugin. *)
Definition unpack_H_native (big_endian : bool) (s : list byte) : result Z :=
  match s with
  | [b0; b1] =>
    if big_endian then Ok (Z.lor (Z.shiftl (byte_val b0) 8) (byte_val b1))
    else Ok (Z.lor (byte_val b0) (Z.shiftl (byte_val b1) 8))
  | _ => Raise StructError
  end.

Definition is_valid_for_data (data : list byte) : bool :=
  let rom_sig := read data ROM_SIG_OFFSET ROM_SIG_LEN in
  if bool_decide (rom_sig ≠ ROM_SIG) then false
  else
    let hdr := read data HDR_OFFSET HDR_SIZE in
    if bool_decide (Z.of_nat (length hdr) ≠ HDR_SIZE) then false
    else true.

Inductive SegmentFlag : Type :=
  | SegmentReadable
  | SegmentWritable
  | SegmentExecutable.

Inductive SectionSemantics : Type :=
  | ReadOnlyCodeSectionSemantics
  | ReadWriteDataSectionSemantics.

Inductive SymbolType : Type :=
  | FunctionSymbol
  | DataSymbol.

(** The calls [init] makes on the host, with their arguments; the flags
    joined by [|] are listed in the order written. *)
Inductive host_call : Type :=
  | add_auto_segment (start length data_offset data_length : Z)
      (flags : list SegmentFlag)
  | add_auto_section (name : string) (start length : Z)
      (semantics : SectionSemantics)
  | define_auto_symbol (type : SymbolType) (addr : Z) (name : string)
  | add_entry_point (addr : Z).

(** The attributes [init] sets from the header. *)
Record header : Type := mkHeader {
  rom_title : list byte;
  color : Z;
  licensee_code : Z;
  gb_type : Z;
  cart_type : Z;
  rom_banks : Z;
  ram_banks : Z;
  destination_code : Z;
  old_licensee_code : Z;
  mask_rom_version : Z;
  complement_check : Z;
  checksum : Z
}.

Definition rx : list SegmentFlag := [SegmentReadable; SegmentExecutable].
Definition rwx : list SegmentFlag :=
  [SegmentReadable; SegmentWritable; SegmentExecutable].

Definition rom_mappings : list host_call :=
  [ add_auto_segment ROM0_OFFSET ROM0_SIZE ROM0_OFFSET ROM0_SIZE rx;
    add_auto_section "ROM0" ROM0_OFFSET ROM0_SIZE ReadOnlyCodeSectionSemantics;
    add_auto_segment ROM1_OFFSET ROM1_SIZE ROM1_OFFSET ROM1_SIZE rx;
    add_auto_section "ROM1" ROM1_OFFSET ROM1_SIZE ReadWriteDataSectionSemantics ].

Definition ram_mappings : list host_call :=
  [ add_auto_segment 0x8000 0x2000 0 0 rwx;
    add_auto_segment 0xA000 0x2000 0 0 rwx;
    add_auto_segment 0xC000 0x2000 0 0 rwx;
    add_auto_segment 0xE000 0x1E00 0 0 rwx;
    add_auto_segment 0xFE00 0xA0 0 0 rwx;
    add_auto_segment 0xFEA0 0xE0 0 0 rwx;
    add_auto_segment 0xFF80 0x80 0 0 rwx ].

(** The special registers, as [(address, name)] in the order of the source. *)
Definition special_registers : list (Z * string) :=
  [
    (0xff00, "P1"); (0xff01, "SB"); (0xff02, "SC"); (0xff04, "DIV");
    (0xff05, "TIMA"); (0xff06, "TMA"); (0xff07, "TAC"); (0xff0f, "IF");
    (0xff10, "NR10"); (0xff11, "NR11"); (0xff12, "NR12"); (0xff13, "NR13");
    (0xff14, "NR14"); (0xff16, "NR21"); (0xff17, "NR22"); (0xff18, "NR23");
    (0xff19, "NR24"); (0xff1a, "NR30"); (0xff1b, "NR31"); (0xff1c, "NR32");
    (0xff1d, "NR33"); (0xff1e, "NR34"); (0xff20, "NR41"); (0xff21, "NR42");
    (0xff22, "NR43"); (0xff23, "NR44"); (0xff24, "NR50"); (0xff25, "NR51");
    (0xff26, "NR52"); (0xff40, "LCDC"); (0xff41, "STAT"); (0xff42, "SCY");
    (0xff43, "SCX"); (0xff44, "LY"); (0xff45, "LYC"); (0xff46, "DMA");
    (0xff47, "BGP"); (0xff48, "OBP0"); (0xff49, "OBP1"); (0xff4a, "WY");
    (0xff4b, "WX"); (0xff4d, "KEY1"); (0xff4f, "VBK"); (0xff51, "HDMA1");
    (0xff52, "HDMA2"); (0xff53, "HDMA3"); (0xff54, "HDMA4");
    (0xff55, "HDMA5"); (0xff56, "RP"); (0xff68, "BCPS"); (0xff69, "BCPD");
    (0xff6a, "OCPS"); (0xff6b, "OCPD"); (0xff70, "SVBK"); (0xffff, "IE") ].

Definition entrypoint : list host_call :=
  [ define_auto_symbol FunctionSymbol START_ADDR "_start";
    add_entry_point START_ADDR ].

Section Init.

(** The byte order of the machine, on which the two ["H"] fields depend. *)
Variable big_endian : bool.

(** The body of the [try] of [init]: the header attributes and the calls
    made, or the exception that sends [init] to its [except] arm. *)
Definition init_try (raw : list byte) : result (header * list host_call) :=
  let hdr := read raw HDR_OFFSET HDR_SIZE in
  let rom_title := slice hdr 0 15 in
  s ← index hdr 15; color ← unpack_B s;
  licensee_code ← unpack_H_native big_endian (slice hdr 16 18);
  s ← index hdr 18; gb_type ← unpack_B s;
  s ← index hdr 19; cart_type ← unpack_B s;
  s ← index hdr 20; rom_banks ← unpack_B s;
  s ← index hdr 21; ram_banks ← unpack_B s;
  s ← index hdr 22; destination_code ← unpack_B s;
  s ← index hdr 23; old_licensee_code ← unpack_B s;
  s ← index hdr 24; mask_rom_version ← unpack_B s;
  s ← index hdr 25; complement_check ← unpack_B s;
  checksum ← unpack_H_native big_endian (slice_from hdr 26);
  Ok (mkHeader rom_title color licensee_code gb_type cart_type rom_banks
        ram_banks destination_code old_licensee_code mask_rom_version
        complement_check checksum,
      (rom_mappings ++ ram_mappings ++
       map (fun r => define_auto_symbol DataSymbol r.1 r.2) special_registers ++
       entrypoint)%list).

(** [init]: [True] when the body ran through, [False] from the [except]
    arm (which logs the error). *)
Definition init (raw : list byte) : bool :=
  match init_try raw with
  | Ok _ => true
  | Raise _ => false
  end.

End Init.

Definition perform_is_valid_offset (addr : Z) : bool :=
  if (addr >=? 0) && (addr <? 0x8000) then true else false.

Definition perform_get_start : Z := 0.

Definition perform_get_length : Z := 0x10000.

Definition perform_is_executable : bool := true.

Definition perform_get_entry_point : Z := START_ADDR.

End GBView.

(** ** A concrete table

    Entries of the Game Boy instruction set written in the format of the
    table, on which the methods can be evaluated. *)

Definition example_opcodes : gmap string op_info :=
  list_to_map
    [ ("0x0",  mkOp "NOP"  1 None None);
      ("0x1",  mkOp "LD"   3 (Some "BC") (Some "d16"));
      ("0x18", mkOp "JR"   2 (Some "r8") None);
      ("0x20", mkOp "JR"   2 (Some "NZ") (Some "r8"));
      ("0x28", mkOp "JR"   2 (Some "Z") (Some "r8"));
      ("0x30", mkOp "JR"   2 (Some "NC") (Some "r8"));
      ("0x38", mkOp "JR"   2 (Some "C") (Some "r8"));
      ("0x3e", mkOp "LD"   2 (Some "A") (Some "d8"));
      ("0xc0", mkOp "RET"  1 (Some "NZ") None);
      ("0xc2", mkOp "JP"   3 (Some "NZ") (Some "a16"));
      ("0xc3", mkOp "JP"   3 (Some "a16") None);
      ("0xc6", mkOp "ADD"  2 (Some "A") (Some "d8"));
      ("0xc9", mkOp "RET"  1 None None);
      ("0xca", mkOp "JP"   3 (Some "Z") (Some "a16"));
      ("0xcd", mkOp "CALL" 3 (Some "a16") None);
      ("0xda", mkOp "JP"   3 (Some "C") (Some "a16"));
      ("0xe0", mkOp "LDH"  2 (Some "(a8)") (Some "A"));
      ("0xe9", mkOp "JP"   1 (Some "(HL)") None);
      ("0xea", mkOp "LD"   3 (Some "(a16)") (Some "A"));
      ("0xf8", mkOp "LD"   2 (Some "HL") (Some "SP+r8")) ].

(** ** Properties in the words of the specification

    These predicates are not taken from the source: they say what the
    specification asks of a result, and are compared with what the methods
    return. *)

(** [sign_extend_8] as the specification defines it. *)
Definition sign_extend_8 (arg : Z) : Z :=
  if arg <? 0x80 then arg else arg - 256.

(** The result is a single edge without a target whose kind says that the
    target is not known statically. *)
Definition spec_indirect_unresolved (r : result (option InstructionInfo)) : Prop :=
  ∃ info b,
    r = Ok (Some info) ∧ ii_branches info = [b] ∧ br_target b = None ∧
    (br_type b = IndirectBranch ∨ br_type b = UnresolvedBranch).

(** The call fails, whatever the failure is called. *)
Definition spec_fails {A : Type} (r : result A) : Prop :=
  ∃ e, r = Raise e.

(** Every edge that carries a target carries one in [lo..hi]. *)
Definition targets_within (lo hi : Z) (i : InstructionInfo) : Prop :=
  Forall (fun b => match br_target b with
                   | Some t => lo <= t <= hi
                   | None => True
                   end) (ii_branches i).

(** The number of bytes after the opcode that
    [perform_get_instruction_info] unpacks: one for [JR], two for [CALL] and
    for [JP] other than [0xe9], none otherwise. *)
Definition operand_bytes_read (op : op_info) (opcode : Z) : nat :=
  if (mnemonic op =? "JR")%string then 1
  else if (mnemonic op =? "JP")%string then (if opcode =? 0xe9 then 0 else 2)
  else if (mnemonic op =? "RET")%string then 0
  else if (mnemonic op =? "CALL")%string then 2
  else 0.

(** ** Notions used in the statements about the code *)

(** The edge lists the method can build: none; one edge to a target that is
    unconditional or a call; one return without target; or a taken edge
    followed by a not-taken edge. *)
Definition edge_shape (l : list InstructionBranch) : Prop :=
  l = [] ∨
  (∃ t, l = [mkBranch UnconditionalBranch (Some t)]) ∨
  (∃ t, l = [mkBranch CallDestination (Some t)]) ∨
  l = [mkBranch FunctionReturn None] ∨
  (∃ t f, l = [mkBranch TrueBranch (Some t); mkBranch FalseBranch (Some f)]).

(** The same info with every target moved by [k]. *)
Definition shift_info (k : Z) (i : InstructionInfo) : InstructionInfo :=
  mkInfo (ii_length i)
    (map (fun e => mkBranch (br_type e) ((fun t => t + k) <$> br_target e))
       (ii_branches i)).

(** [tag] occurs in [s]; [s] begins with [tag]. *)
Definition occurs_in (alts : list string) (s : string) : Prop :=
  ∃ pre tag post, In tag alts ∧ s = (pre ++ tag ++ post)%string.

Definition begins_with (alts : list string) (s : string) : Prop :=
  ∃ tag post, In tag alts ∧ s = (tag ++ post)%string.

(** The segments among the host calls, as
    [(start, length, data_offset, data_length)]. *)
Definition segments_of (calls : list GBView.host_call) : list (Z * Z * Z * Z) :=
  omap (fun c => match c with
                 | GBView.add_auto_segment s l o d _ => Some (s, l, o, d)
                 | _ => None
                 end) calls.

(** The symbols among the host calls. *)
Definition symbols_of (calls : list GBView.host_call)
  : list (GBView.SymbolType * Z * string) :=
  omap (fun c => match c with
                 | GBView.define_auto_symbol t a n => Some (t, a, n)
                 | _ => None
                 end) calls.

(** [addr] lies in the segment. *)
Definition in_segment (addr : Z) (seg : Z * Z * Z * Z) : bool :=
  let '(s, l, _, _) := seg in (s <=? addr) && (addr <? s + l).

(** The segment is backed by bytes of the file. *)
Definition file_backed (seg : Z * Z * Z * Z) : bool :=
  let '(_, _, _, d) := seg in 0 <? d.

(** The number of segments in which [addr] lies. *)
Definition covering (addr : Z) (segs : list (Z * Z * Z * Z)) : nat :=
  length (List.filter (in_segment addr) segs).

(** The value of the byte of the file at offset [n], if there is one. *)
Definition byte_at (raw : list byte) (n : nat) : option Z :=
  byte_val <$> raw !! n.

(** The calls of a complete run of [init], which do not depend on the file. *)
Definition init_calls : list GBView.host_call :=
  (GBView.rom_mappings ++ GBView.ram_mappings ++
   map (fun r => GBView.define_auto_symbol GBView.DataSymbol r.1 r.2)
     GBView.special_registers ++
   GBView.entrypoint)%list.

(** A file on which the loader can be evaluated: zeros up to the signature,
    the signature, and a header of [0x1C] bytes. *)
Definition example_header : list byte :=
  [ x54; x45; x54; x52; x49; x53; x00; x00; x00; x00; x00; x00; x00; x00; x00;
    x80; x30; x31; x00; x03; x05; x02; x01; x33; x00; x0b; x89; xb5 ].

Definition example_rom : list byte :=
  (replicate 260 x00 ++ GBView.ROM_SIG ++ example_header)%list.

(** The attributes [init] sets on [example_rom] on a little-endian machine. *)
Definition example_attributes : GBView.header :=
  GBView.mkHeader (take 15 example_header)
    0x80 0x3130 0x00 0x03 0x05 0x02 0x01 0x33 0x00 0x0b 0xb589.

(** [f] holds of the [2^k] integers from [acc * 2^k] on. *)
Fixpoint all_bits (k : nat) (acc : Z) (f : Z -> bool) : bool :=
  match k with
  | O => f acc
  | S k' => all_bits k' (2 * acc) f && all_bits k' (2 * acc + 1) f
  end.

(** ** Bytes and formats *)

Lemma byte_val_range (b : byte) : 0 <= byte_val b < 256.
Proof.
  unfold byte_val. pose proof (Byte.to_N_bounded b) as H. lia.
Qed.

Lemma land_lnot_byte (a : Z) : 0 <= a < 256 -> Z.land (Z.lnot a) 0xff = 255 - a.
Proof.
  intros H. replace (Z.land (Z.lnot a) 0xff) with (Z.land (Z.lnot a) (Z.ones 8))
    by reflexivity.
  rewrite Z.land_ones by lia. unfold Z.lnot.
  change (2 ^ 8) with 256.
  symmetry. apply (Z.mod_unique_pos _ _ (-1)); lia.
Qed.

Lemma jr_back_byte (addr : Z) (b : byte) :
  jr_back addr (byte_val b) = addr + byte_val b - 254.
Proof.
  unfold jr_back. rewrite land_lnot_byte by apply byte_val_range. lia.
Qed.

Lemma lor_shiftl_8 (lo hi : Z) :
  0 <= lo < 256 -> 0 <= hi ->
  Z.lor lo (Z.shiftl hi 8) = lo + 256 * hi.
Proof.
  intros Hlo Hhi.
  rewrite Z.shiftl_mul_pow2 by lia. change (2 ^ 8) with 256.
  rewrite <- Z.add_nocarry_lor.
  - lia.
  - apply Z.bits_inj'. intros n Hn. rewrite Z.land_spec, Z.bits_0.
    destruct (Z.ltb_spec n 8).
    + replace (hi * 256) with (hi * 2 ^ 8) by lia.
      rewrite (Z.mul_pow2_bits_low hi) by lia. apply andb_false_r.
    + rewrite (Z.bits_above_log2 lo); [reflexivity| lia |].
      destruct (Z.eq_dec lo 0) as [->|Hne]; [simpl; lia|].
      apply Z.lt_le_trans with 8; [|lia].
      apply Z.log2_lt_pow2; lia.
Qed.

Lemma unpack_H_value (lo hi : byte) :
  unpack_H [lo; hi] = Ok (byte_val lo + 256 * byte_val hi).
Proof.
  unfold unpack_H. f_equal.
  pose proof (byte_val_range lo). pose proof (byte_val_range hi).
  apply lor_shiftl_8; lia.
Qed.

(** ** Stepping through the methods *)

Lemma info_entry (opcodes : gmap string op_info) (b : byte) (rest : list byte)
    (addr : Z) :
  perform_get_instruction_info opcodes (b :: rest) addr =
  match opcodes !! opcode_key (byte_val b) with
  | None => Ok None
  | Some op =>
    if (mnemonic op =? "JR")%string then
      arg ← unpack_B (slice (b :: rest) 1 2);
      Ok (Some (jr_branches (mkInfo (op_length op) []) (byte_val b) addr arg))
    else if (mnemonic op =? "JP")%string then
      if byte_val b =? 0xe9 then
        Ok (Some (mkInfo (op_length op) [mkBranch UnconditionalBranch (Some 0xdead)]))
      else
        arg ← unpack_H (slice (b :: rest) 1 3);
        Ok (Some (jp_branches (mkInfo (op_length op) []) (byte_val b) addr arg))
    else if (mnemonic op =? "RET")%string then
      Ok (Some (mkInfo (op_length op) [mkBranch FunctionReturn None]))
    else if (mnemonic op =? "CALL")%string then
      arg ← unpack_H (slice (b :: rest) 1 3);
      Ok (Some (mkInfo (op_length op) [mkBranch CallDestination (Some arg)]))
    else
      Ok (Some (mkInfo (op_length op) []))
  end.
Proof. reflexivity. Qed.

Lemma info_JR (opcodes : gmap string op_info) (b arg : byte) (rest : list byte)
    (addr : Z) (op : op_info) :
  opcodes !! opcode_key (byte_val b) = Some op ->
  mnemonic op = "JR" ->
  perform_get_instruction_info opcodes (b :: arg :: rest) addr =
  Ok (Some (jr_branches (mkInfo (op_length op) []) (byte_val b) addr (byte_val arg))).
Proof.
  intros Hop Hmn. rewrite info_entry, Hop, Hmn. reflexivity.
Qed.

Lemma info_JP (opcodes : gmap string op_info) (b lo hi : byte) (rest : list byte)
    (addr : Z) (op : op_info) :
  opcodes !! opcode_key (byte_val b) = Some op ->
  mnemonic op = "JP" ->
  byte_val b <> 0xe9 ->
  perform_get_instruction_info opcodes (b :: lo :: hi :: rest) addr =
  Ok (Some (jp_branches (mkInfo (op_length op) []) (byte_val b) addr
              (byte_val lo + 256 * byte_val hi))).
Proof.
  intros Hop Hmn Hne. rewrite info_entry, Hop, Hmn.
  apply Z.eqb_neq in Hne. rewrite Hne.
  change (slice (b :: lo :: hi :: rest) 1 3) with [lo; hi].
  rewrite unpack_H_value. reflexivity.
Qed.

Lemma byte_val_inj (a b : byte) : byte_val a = byte_val b -> a = b.
Proof.
  unfold byte_val. intros H. apply N2Z.inj in H.
  pose proof (Byte.of_to_N a) as Ha. pose proof (Byte.of_to_N b) as Hb.
  rewrite H in Ha. congruence.
Qed.

Lemma byte_val_eqb_ne (a b : byte) : a <> b -> (byte_val a =? byte_val b) = false.
Proof.
  intros Hne. apply Z.eqb_neq. intros H. apply Hne, byte_val_inj, H.
Qed.

(** The backward formula against the signed displacement: they agree from
    [0x80] on and are 256 apart below. *)
Lemma jr_back_sign_extend (addr arg : Z) :
  0 <= arg < 256 ->
  jr_back addr arg =
  addr + 2 + sign_extend_8 arg - (if arg <? 0x80 then 256 else 0).
Proof.
  intros H. unfold jr_back, sign_extend_8. rewrite land_lnot_byte by lia.
  destruct (arg <? 0x80); lia.
Qed.

(** ** Branch edges *)

(** C1 (as amended): for the opcode [0xe9] under the mnemonic [JP], the method
    returns one [UnconditionalBranch] edge whose target is the constant
    [0xdead]; the operand bytes are not read. *)
Theorem indirect_jump_placeholder (opcodes : gmap string op_info)
    (rest : list byte) (addr : Z) (op : op_info) :
  opcodes !! "0xe9" = Some op ->
  mnemonic op = "JP" ->
  perform_get_instruction_info opcodes (xe9 :: rest) addr =
  Ok (Some (mkInfo (op_length op) [mkBranch UnconditionalBranch (Some 0xdead)])).
Proof.
  intros Hop Hmn. rewrite info_entry.
  change (opcode_key (byte_val xe9)) with "0xe9". rewrite Hop, Hmn.
  reflexivity.
Qed.

Lemma indirect_jump_placeholder_witness :
  perform_get_instruction_info example_opcodes [xe9] 0x200 =
  Ok (Some (mkInfo 1 [mkBranch UnconditionalBranch (Some 0xdead)])).
Proof.
  apply (indirect_jump_placeholder example_opcodes [] 0x200
           (mkOp "JP" 1 (Some "(HL)") None)); reflexivity.
Defined.

(** C1 (as stated) fails: at [0xe9] the single edge is not an unresolved or
    indirect edge without target. *)
Lemma indirect_jump_counterexample :
  ¬ spec_indirect_unresolved
      (perform_get_instruction_info example_opcodes [xe9] 0x200).
Proof.
  intros (info & b & Hr & Hb & Ht & _).
  vm_compute in Hr. injection Hr as <-. simpl in Hb.
  injection Hb as <-. discriminate Ht.
Qed.

(** C3: the code at a forward displacement.  [JR +5] at [0x200] gets the
    target [0x107], while [address + 2 + sign_extend_8(arg)] is [0x207]. *)
Theorem jr_forward_displacement_divergence :
  perform_get_instruction_info example_opcodes [x18; x05] 0x200 =
    Ok (Some (mkInfo 2 [mkBranch UnconditionalBranch (Some 0x107)])) ∧
  jr_back 0x200 (byte_val x05) = 0x107 ∧
  0x200 + 2 + sign_extend_8 (byte_val x05) = 0x207.
Proof. repeat split. Qed.

(** C4: the unconditional relative jump [0x18] yields the single edge
    [UnconditionalBranch] to [addr - (~arg & 0xff) + 1]; with displacement
    [0xfe] at [0x0200] the target is [0x0200]. *)
Theorem jr_unconditional_edge (opcodes : gmap string op_info) (op : op_info) :
  opcodes !! "0x18" = Some op ->
  mnemonic op = "JR" ->
  (∀ (arg : byte) (rest : list byte) (addr : Z),
     perform_get_instruction_info opcodes (x18 :: arg :: rest) addr =
     Ok (Some (mkInfo (op_length op)
                 [mkBranch UnconditionalBranch
                    (Some (addr - Z.land (Z.lnot (byte_val arg)) 0xff + 1))]))) ∧
  (∀ rest : list byte,
     perform_get_instruction_info opcodes (x18 :: xfe :: rest) 0x0200 =
     Ok (Some (mkInfo (op_length op)
                 [mkBranch UnconditionalBranch (Some 0x0200)]))).
Proof.
  intros Hop Hmn.
  assert (Hgen : ∀ arg rest addr,
     perform_get_instruction_info opcodes (x18 :: arg :: rest) addr =
     Ok (Some (mkInfo (op_length op)
                 [mkBranch UnconditionalBranch
                    (Some (addr - Z.land (Z.lnot (byte_val arg)) 0xff + 1))]))).
  { intros arg rest addr. now rewrite (info_JR _ _ _ _ _ op). }
  split; [exact Hgen|]. intros rest. rewrite Hgen. reflexivity.
Qed.

Lemma jr_unconditional_edge_witness :
  perform_get_instruction_info example_opcodes [x18; xfe] 0x0200 =
  Ok (Some (mkInfo 2 [mkBranch UnconditionalBranch (Some 0x0200)])).
Proof.
  apply (jr_unconditional_edge example_opcodes (mkOp "JR" 2 (Some "r8") None));
    reflexivity.
Defined.

(** C5: a [JR] with opcode [0x28] or [0x38] yields [TrueBranch(addr+2+arg)]
    then [FalseBranch(addr+2)]; with opcode [0x20] or [0x30] it yields
    [TrueBranch(addr+2)] then [FalseBranch(addr - (~arg & 0xff) + 1)]. *)
Theorem jr_conditional_edges (opcodes : gmap string op_info) (b arg : byte)
    (rest : list byte) (addr : Z) (op : op_info) :
  opcodes !! opcode_key (byte_val b) = Some op ->
  mnemonic op = "JR" ->
  (b = x28 ∨ b = x38 ->
   perform_get_instruction_info opcodes (b :: arg :: rest) addr =
   Ok (Some (mkInfo (op_length op)
               [mkBranch TrueBranch (Some (addr + 2 + byte_val arg));
                mkBranch FalseBranch (Some (addr + 2))]))) ∧
  (b = x20 ∨ b = x30 ->
   perform_get_instruction_info opcodes (b :: arg :: rest) addr =
   Ok (Some (mkInfo (op_length op)
               [mkBranch TrueBranch (Some (addr + 2));
                mkBranch FalseBranch
                  (Some (addr - Z.land (Z.lnot (byte_val arg)) 0xff + 1))]))).
Proof.
  intros Hop Hmn. rewrite (info_JR _ _ _ _ _ op Hop Hmn).
  split; intros [-> | ->]; reflexivity.
Qed.

Lemma jr_conditional_edges_witness :
  perform_get_instruction_info example_opcodes [x28; x05] 0x200 =
    Ok (Some (mkInfo 2 [mkBranch TrueBranch (Some 0x207);
                        mkBranch FalseBranch (Some 0x202)])) ∧
  perform_get_instruction_info example_opcodes [x20; xfe] 0x200 =
    Ok (Some (mkInfo 2 [mkBranch TrueBranch (Some 0x202);
                        mkBranch FalseBranch (Some 0x200)])).
Proof.
  split.
  - apply (jr_conditional_edges example_opcodes x28 x05 [] 0x200
             (mkOp "JR" 2 (Some "Z") (Some "r8"))); [reflexivity..|].
    left; reflexivity.
  - apply (jr_conditional_edges example_opcodes x20 xfe [] 0x200
             (mkOp "JR" 2 (Some "NZ") (Some "r8"))); [reflexivity..|].
    left; reflexivity.
Defined.

(** C6: a [JP] other than [0xe9], with the little-endian word [arg16] after
    the opcode: [0xca] and [0xda] yield [TrueBranch(arg16)] then
    [FalseBranch(addr+3)]; [0xc0] and [0xd0] yield [TrueBranch(addr+3)] then
    [FalseBranch(arg16)]; every other opcode yields the single edge
    [UnconditionalBranch(arg16)]. *)
Theorem jp_edges (opcodes : gmap string op_info) (b lo hi : byte)
    (rest : list byte) (addr : Z) (op : op_info) :
  opcodes !! opcode_key (byte_val b) = Some op ->
  mnemonic op = "JP" ->
  b <> xe9 ->
  let arg16 := byte_val lo + 256 * byte_val hi in
  let r := perform_get_instruction_info opcodes (b :: lo :: hi :: rest) addr in
  (b = xca ∨ b = xda ->
   r = Ok (Some (mkInfo (op_length op)
                   [mkBranch TrueBranch (Some arg16);
                    mkBranch FalseBranch (Some (addr + 3))]))) ∧
  (b = xc0 ∨ b = xd0 ->
   r = Ok (Some (mkInfo (op_length op)
                   [mkBranch TrueBranch (Some (addr + 3));
                    mkBranch FalseBranch (Some arg16)]))) ∧
  (b <> xca -> b <> xda -> b <> xc0 -> b <> xd0 ->
   r = Ok (Some (mkInfo (op_length op)
                   [mkBranch UnconditionalBranch (Some arg16)]))).
Proof.
  intros Hop Hmn Hne arg16 r. subst r arg16.
  rewrite (info_JP _ _ _ _ _ _ op Hop Hmn)
    by (intros H; apply Hne, byte_val_inj, H).
  repeat split.
  - intros [-> | ->]; reflexivity.
  - intros [-> | ->]; reflexivity.
  - intros H1 H2 H3 H4. unfold jp_branches.
    rewrite (byte_val_eqb_ne b xca H1 : (byte_val b =? 0xca) = false).
    rewrite (byte_val_eqb_ne b xda H2 : (byte_val b =? 0xda) = false).
    rewrite (byte_val_eqb_ne b xc0 H3 : (byte_val b =? 0xc0) = false).
    rewrite (byte_val_eqb_ne b xd0 H4 : (byte_val b =? 0xd0) = false).
    reflexivity.
Qed.

Lemma jp_edges_witness :
  perform_get_instruction_info example_opcodes [xca; x34; x12] 0x200 =
    Ok (Some (mkInfo 3 [mkBranch TrueBranch (Some 0x1234);
                        mkBranch FalseBranch (Some 0x203)])) ∧
  perform_get_instruction_info example_opcodes [xc2; x34; x12] 0x200 =
    Ok (Some (mkInfo 3 [mkBranch UnconditionalBranch (Some 0x1234)])).
Proof.
  split.
  - apply (jp_edges example_opcodes xca x34 x12 [] 0x200
             (mkOp "JP" 3 (Some "Z") (Some "a16"))); [reflexivity.. | | ].
    + discriminate.
    + left; reflexivity.
  - apply (jp_edges example_opcodes xc2 x34 x12 [] 0x200
             (mkOp "JP" 3 (Some "NZ") (Some "a16"))); [reflexivity.. | | | | | ];
      discriminate.
Defined.

(** ** Failures *)

Lemma text_entry (opcodes : gmap string op_info) (b : byte) (rest : list byte)
    (addr : Z) :
  perform_get_instruction_text opcodes (b :: rest) addr =
  match opcodes !! opcode_key (byte_val b) with
  | None => Ok None
  | Some op =>
    tokens ←
      match operand1 op with
      | Some o1 =>
        t1 ← get_token o1 (b :: rest);
        match operand2 op with
        | Some o2 =>
          t2 ← get_token o2 (b :: rest);
          Ok [mkToken InstructionToken (lower (mnemonic op)) None;
              mkToken OperandSeparatorToken "    " None; t1;
              mkToken OperandSeparatorToken ", " None; t2]
        | None =>
          Ok [mkToken InstructionToken (lower (mnemonic op)) None;
              mkToken OperandSeparatorToken "    " None; t1]
        end
      | None => Ok [mkToken InstructionToken (lower (mnemonic op)) None]
      end;
    Ok (Some (tokens, op_length op))
  end.
Proof. reflexivity. Qed.

(** C7: when the table has no entry under the key of the first byte, both
    methods return [None]: the [KeyError] is caught, no instruction info and
    no token list is produced, and nothing is raised to the caller. *)
Theorem unknown_opcode_returns_None (opcodes : gmap string op_info) (b : byte)
    (rest : list byte) (addr : Z) :
  opcodes !! opcode_key (byte_val b) = None ->
  perform_get_instruction_info opcodes (b :: rest) addr = Ok None ∧
  perform_get_instruction_text opcodes (b :: rest) addr = Ok None.
Proof.
  intros Hnone. rewrite info_entry, text_entry, Hnone. split; reflexivity.
Qed.

Lemma unknown_opcode_returns_None_witness :
  perform_get_instruction_info example_opcodes [xcb; x37] 0x150 = Ok None ∧
  perform_get_instruction_text example_opcodes [xcb; x37] 0x150 = Ok None.
Proof.
  apply (unknown_opcode_returns_None example_opcodes xcb [x37] 0x150).
  reflexivity.
Defined.

(** C2 (as amended): with fewer bytes than the entry's length, the method
    compares nothing with that length.  It raises [struct.error] exactly when
    the slice it unpacks for the mnemonic comes back short (no second byte
    for [JR]; fewer than three bytes for [CALL] and for [JP] other than
    [0xe9]); otherwise it returns the info with the entry's length. *)
Theorem truncated_slice_info (opcodes : gmap string op_info) (b : byte)
    (rest : list byte) (addr : Z) (op : op_info) :
  opcodes !! opcode_key (byte_val b) = Some op ->
  Z.of_nat (length (b :: rest)) < op_length op ->
  let r := perform_get_instruction_info opcodes (b :: rest) addr in
  ((length rest < operand_bytes_read op (byte_val b))%nat ->
   r = Raise StructError) ∧
  ((operand_bytes_read op (byte_val b) <= length rest)%nat ->
   ∃ info, r = Ok (Some info) ∧ ii_length info = op_length op).
Proof.
  intros Hop _ r. subst r. rewrite info_entry, Hop.
  unfold operand_bytes_read.
  destruct (mnemonic op =? "JR")%string.
  { destruct rest as [|a rest]; simpl; split; intros H; try lia.
    - reflexivity.
    - eexists; split; [reflexivity|]. unfold jr_branches.
      repeat match goal with |- context [if ?c then _ else _] => destruct c end;
        reflexivity. }
  destruct (mnemonic op =? "JP")%string.
  { destruct (byte_val b =? 0xe9).
    - split; intros H; [simpl in H; lia|]. eexists; split; reflexivity.
    - destruct rest as [|lo [|hi rest]]; simpl length; split; intros H;
        try lia; try reflexivity.
      change (slice (b :: lo :: hi :: rest) 1 3) with [lo; hi].
      rewrite unpack_H_value.
      eexists; split; [reflexivity|]. unfold jp_branches.
      repeat match goal with |- context [if ?c then _ else _] => destruct c end;
        reflexivity. }
  destruct (mnemonic op =? "RET")%string.
  { split; intros H; [simpl in H; lia|]. eexists; split; reflexivity. }
  destruct (mnemonic op =? "CALL")%string.
  { destruct rest as [|lo [|hi rest]]; simpl length; split; intros H;
      try lia; try reflexivity.
    change (slice (b :: lo :: hi :: rest) 1 3) with [lo; hi].
    rewrite unpack_H_value. eexists; split; reflexivity. }
  split; intros H; [simpl in H; lia|]. eexists; split; reflexivity.
Qed.

Lemma truncated_slice_info_witness :
  perform_get_instruction_info example_opcodes [xc3; x50] 0x100 =
    Raise StructError ∧
  ∃ info, perform_get_instruction_info example_opcodes [x3e] 0x100 =
            Ok (Some info) ∧ ii_length info = 2.
Proof.
  split.
  - apply (truncated_slice_info example_opcodes xc3 [x50] 0x100
             (mkOp "JP" 3 (Some "a16") None)); [reflexivity | reflexivity |].
    vm_compute. lia.
  - apply (truncated_slice_info example_opcodes x3e [] 0x100
             (mkOp "LD" 2 (Some "A") (Some "d8"))); [reflexivity | reflexivity |].
    vm_compute. lia.
Defined.

(** C2 (as stated) fails: [LD A,d8] has length 2, and with the opcode byte
    alone the method returns its info instead of failing. *)
Lemma truncated_counterexample :
  example_opcodes !! opcode_key (byte_val x3e) =
    Some (mkOp "LD" 2 (Some "A") (Some "d8")) ∧
  Z.of_nat (length [x3e]) < 2 ∧
  ¬ spec_fails (perform_get_instruction_info example_opcodes [x3e] 0x100).
Proof.
  split; [reflexivity|]. split; [reflexivity|].
  intros [e He]. vm_compute in He. discriminate He.
Qed.

(** ** The range of targets *)

Lemma targets_within_jr (lo hi len opcode addr : Z) (arg : byte) :
  lo <= addr + 2 <= hi ->
  lo <= addr + 2 + byte_val arg <= hi ->
  lo <= addr + byte_val arg - 254 <= hi ->
  targets_within lo hi (jr_branches (mkInfo len []) opcode addr (byte_val arg)).
Proof.
  intros H1 H2 H3. unfold targets_within, jr_branches.
  pose proof (jr_back_byte addr arg) as Hb.
  destruct ((opcode =? 0x28) || (opcode =? 0x38));
    [|destruct ((opcode =? 0x20) || (opcode =? 0x30))];
    simpl; repeat constructor; simpl; lia.
Qed.

Lemma targets_within_jp (lo hi len opcode addr arg : Z) :
  lo <= addr + 3 <= hi ->
  lo <= arg <= hi ->
  targets_within lo hi (jp_branches (mkInfo len []) opcode addr arg).
Proof.
  intros H1 H2. unfold targets_within, jp_branches.
  destruct ((opcode =? 0xca) || (opcode =? 0xda));
    [|destruct ((opcode =? 0xc0) || (opcode =? 0xd0))];
    simpl; repeat constructor; simpl; lia.
Qed.

(** Whatever the table and the bytes, the targets of the returned edges obey
    the bounds in which [addr + 2], [addr + 3], [addr + 2 + arg],
    [addr + arg - 254], every 16-bit word and [0xdead] lie. *)
Lemma targets_within_info (opcodes : gmap string op_info) (data : list byte)
    (addr lo hi : Z) (info : InstructionInfo) :
  lo <= 0 -> 65535 <= hi ->
  lo <= addr - 254 -> addr + 257 <= hi ->
  perform_get_instruction_info opcodes data addr = Ok (Some info) ->
  targets_within lo hi info.
Proof.
  intros Hlo Hhi Hal Hah Hr.
  destruct data as [|b rest]; [discriminate Hr|].
  rewrite info_entry in Hr.
  destruct (opcodes !! opcode_key (byte_val b)) as [op|]; [|discriminate Hr].
  destruct (mnemonic op =? "JR")%string.
  { destruct rest as [|arg rest]; [discriminate Hr|].
    change (slice (b :: arg :: rest) 1 2) with [arg] in Hr.
    injection Hr as <-. pose proof (byte_val_range arg).
    apply targets_within_jr; lia. }
  destruct (mnemonic op =? "JP")%string.
  { destruct (byte_val b =? 0xe9).
    - injection Hr as <-. unfold targets_within. simpl.
      repeat constructor; simpl; lia.
    - destruct rest as [|l [|h rest]]; try discriminate Hr.
      change (slice (b :: l :: h :: rest) 1 3) with [l; h] in Hr.
      rewrite unpack_H_value in Hr. injection Hr as <-.
      pose proof (byte_val_range l). pose proof (byte_val_range h).
      apply targets_within_jp; lia. }
  destruct (mnemonic op =? "RET")%string.
  { injection Hr as <-. unfold targets_within. simpl. repeat constructor. }
  destruct (mnemonic op =? "CALL")%string.
  { destruct rest as [|l [|h rest]]; try discriminate Hr.
    change (slice (b :: l :: h :: rest) 1 3) with [l; h] in Hr.
    rewrite unpack_H_value in Hr. injection Hr as <-.
    pose proof (byte_val_range l). pose proof (byte_val_range h).
    unfold targets_within. simpl. repeat constructor; simpl; lia. }
  injection Hr as <-. unfold targets_within. simpl. constructor.
Qed.

(** C8 (as amended): for an address in [0..65535] the targets are the
    unbounded integers the formulas give, between [-254] and [65792]; nothing
    reduces them modulo 65536.  They lie in [0..65535] whenever the address
    lies in [254..65278]. *)
Theorem branch_targets_range (opcodes : gmap string op_info) (data : list byte)
    (addr : Z) (info : InstructionInfo) :
  0 <= addr <= 65535 ->
  perform_get_instruction_info opcodes data addr = Ok (Some info) ->
  targets_within (-254) 65792 info ∧
  (254 <= addr <= 65278 -> targets_within 0 65535 info).
Proof.
  intros Ha Hr. split.
  - apply (targets_within_info opcodes data addr); [lia..|exact Hr].
  - intros Hmid.
    apply (targets_within_info opcodes data addr); [lia..|exact Hr].
Qed.

Lemma branch_targets_range_witness :
  targets_within (-254) 65792
    (mkInfo 2 [mkBranch TrueBranch (Some 0x301);
               mkBranch FalseBranch (Some 0x202)]) ∧
  (254 <= 0x200 <= 65278 ->
   targets_within 0 65535
     (mkInfo 2 [mkBranch TrueBranch (Some 0x301);
                mkBranch FalseBranch (Some 0x202)])).
Proof.
  apply (branch_targets_range example_opcodes [x28; xff] 0x200).
  - lia.
  - reflexivity.
Defined.

(** C8 (as stated) fails: [JR Z] with displacement [0xff] at [0xffff] gets the
    taken target [0x10100], above 65535. *)
Lemma branch_targets_counterexample :
  ∃ info,
    perform_get_instruction_info example_opcodes [x28; xff] 0xffff =
      Ok (Some info) ∧
    ¬ targets_within 0 65535 info.
Proof.
  exists (mkInfo 2 [mkBranch TrueBranch (Some 0x10100);
                    mkBranch FalseBranch (Some 0x10001)]).
  split; [reflexivity|].
  unfold targets_within. intros H.
  apply Forall_cons in H as [H _]. cbn [br_target] in H. lia.
Qed.

(** Both ends of the amended range are reached. *)
Example branch_target_lowest :
  perform_get_instruction_info example_opcodes [x18; x00] 0 =
  Ok (Some (mkInfo 2 [mkBranch UnconditionalBranch (Some (-254))])).
Proof. reflexivity. Qed.

Example branch_target_highest :
  perform_get_instruction_info example_opcodes [x28; xff] 65535 =
  Ok (Some (mkInfo 2 [mkBranch TrueBranch (Some 65792);
                      mkBranch FalseBranch (Some 65537)])).
Proof. reflexivity. Qed.

(** ** Tokens *)

Lemma prefix_app (p s : string) :
  String.prefix p s = true <-> ∃ post, s = (p ++ post)%string.
Proof.
  revert s. induction p as [|c p IH]; intros s.
  - split; [intros _; exists s; reflexivity | intros _; destruct s; reflexivity].
  - destruct s as [|d s]; simpl.
    + split; [discriminate | intros [post H]; discriminate H].
    + destruct (ascii_dec c d) as [->|Hne].
      * rewrite IH. split; intros [post H]; exists post.
        -- rewrite H. reflexivity.
        -- simpl in H. injection H as H. exact H.
      * split; [discriminate | intros [post H]].
        simpl in H. injection H as Hd _. symmetry in Hd. contradiction.
Qed.

(** [re_match] holds when the subject begins with one of the words. *)
Lemma re_match_spec (alts : list string) (s : string) :
  re_match alts s = true <->
  ∃ p post, In p alts ∧ s = (p ++ post)%string.
Proof.
  unfold re_match. rewrite existsb_exists. split.
  - intros (p & Hin & Hp). apply prefix_app in Hp as [post ->]. eauto.
  - intros (p & post & Hin & ->). exists p. split; [exact Hin|].
    apply prefix_app. eauto.
Qed.

(** [re_search] holds when one of the words occurs in the subject. *)
Lemma re_search_spec (alts : list string) (s : string) :
  re_search alts s = true <->
  ∃ pre p post, In p alts ∧ s = (pre ++ p ++ post)%string.
Proof.
  induction s as [|c s IH]; simpl; rewrite orb_true_iff, re_match_spec.
  - split.
    + intros [(p & post & Hin & H) | H]; [|discriminate H].
      exists "", p, post. auto.
    + intros (pre & p & post & Hin & H). left.
      destruct pre; [|discriminate H]. eauto.
  - rewrite IH. split.
    + intros [(p & post & Hin & H) | (pre & p & post & Hin & ->)].
      * exists "", p, post. auto.
      * exists (String c pre), p, post. auto.
    + intros (pre & p & post & Hin & H). destruct pre as [|d pre].
      * left. eauto.
      * right. simpl in H. injection H as -> ->. eauto.
Qed.

Lemma length_append (s t : string) :
  String.length (s ++ t)%string = (String.length s + String.length t)%nat.
Proof. induction s as [|c s IH]; simpl; [reflexivity | now rewrite IH]. Qed.

Lemma fmt_x_prec_byte (b : byte) :
  fmt_x_prec 4 (byte_val b) = ("00" ++ fmt_x_prec 2 (byte_val b))%string ∧
  String.length (fmt_x_prec 2 (byte_val b)) = 2%nat.
Proof. destruct b; split; reflexivity. Qed.

(** With the opcode and two more bytes at hand, [get_token] returns a token
    for every descriptor. *)
Lemma get_token_total (operand : string) (b0 b1 b2 : byte) (rest : list byte) :
  ∃ t, get_token operand (b0 :: b1 :: b2 :: rest) = Ok t.
Proof.
  unfold get_token.
  change (index (b0 :: b1 :: b2 :: rest) 1) with (Ok [b1]).
  change (slice (b0 :: b1 :: b2 :: rest) 1 3) with [b1; b2].
  rewrite unpack_H_value. simpl.
  repeat match goal with |- context [if ?c then _ else _] => destruct c end;
    eauto.
Qed.

(** C9: on any data that begins with a byte that has a table entry, the
    method returns tokens exactly when [get_token] returns for every operand
    it renders, and the tokens are then the lower-cased mnemonic; then, when
    the entry has [operand1], the four-space separator and the token of
    [operand1]; then, when it also has [operand2], the comma-space separator
    and the token of [operand2]; and nothing else.  The length beside them is
    the entry's.  With the opcode and two more bytes the method always
    returns tokens, and it never returns [None] for such a byte. *)
Theorem instruction_text_tokens (opcodes : gmap string op_info)
    (b : byte) (rest : list byte) (addr : Z) (op : op_info) :
  opcodes !! opcode_key (byte_val b) = Some op ->
  let data := b :: rest in
  let r := perform_get_instruction_text opcodes data addr in
  let mn := mkToken InstructionToken (lower (mnemonic op)) None in
  let sep1 := mkToken OperandSeparatorToken "    " None in
  let sep2 := mkToken OperandSeparatorToken ", " None in
  (∀ tokens n,
     r = Ok (Some (tokens, n)) <->
     n = op_length op ∧
     match operand1 op, operand2 op with
     | None, _ => tokens = [mn]
     | Some o1, None =>
       ∃ t1, get_token o1 data = Ok t1 ∧ tokens = [mn; sep1; t1]
     | Some o1, Some o2 =>
       ∃ t1 t2, get_token o1 data = Ok t1 ∧ get_token o2 data = Ok t2 ∧
                tokens = [mn; sep1; t1; sep2; t2]
     end) ∧
  ((2 <= length rest)%nat ->
   ∃ tokens, r = Ok (Some (tokens, op_length op))) ∧
  r <> Ok None.
Proof.
  intros Hop data r mn sep1 sep2. subst r data mn sep1 sep2.
  rewrite text_entry, Hop.
  split; [|split].
  - intros tokens n.
    destruct (operand1 op) as [o1|].
    2: { split; [intros H; injection H as <- <-; auto|].
         intros [-> ->]. reflexivity. }
    destruct (get_token o1 (b :: rest)) as [t1|e1].
    2: { destruct (operand2 op); (split; [discriminate|]).
         - intros (_ & t1 & t2 & H & _). discriminate H.
         - intros (_ & t1 & H & _). discriminate H. }
    destruct (operand2 op) as [o2|].
    2: { split; [intros H; injection H as <- <-; eauto|].
         intros (-> & t & H & ->). injection H as <-. reflexivity. }
    destruct (get_token o2 (b :: rest)) as [t2|e2].
    2: { split; [discriminate|].
         intros (_ & t & t' & _ & H & _). discriminate H. }
    split; [intros H; injection H as <- <-; eauto 6|].
    intros (-> & t & t' & H1 & H2 & ->).
    injection H1 as <-. injection H2 as <-. reflexivity.
  - intros Hlen. destruct rest as [|b1 [|b2 rest]]; try (simpl in Hlen; lia).
    destruct (operand1 op) as [o1|]; [|eexists; reflexivity].
    destruct (get_token_total o1 b b1 b2 rest) as [t1 H1]. rewrite H1.
    destruct (operand2 op) as [o2|]; [|eexists; reflexivity].
    destruct (get_token_total o2 b b1 b2 rest) as [t2 H2]. rewrite H2.
    eexists; reflexivity.
  - destruct (operand1 op) as [o1|]; [|discriminate].
    destruct (get_token o1 (b :: rest)) as [t1|e1]; [|discriminate].
    destruct (operand2 op) as [o2|]; [|discriminate].
    destruct (get_token o2 (b :: rest)) as [t2|e2]; discriminate.
Qed.

Lemma instruction_text_tokens_witness :
  perform_get_instruction_text example_opcodes [x3e; x0a] 0x150 =
    Ok (Some ([mkToken InstructionToken "ld" None;
               mkToken OperandSeparatorToken "    " None;
               mkToken RegisterToken "a" None;
               mkToken OperandSeparatorToken ", " None;
               mkToken IntegerToken "0x0a" (Some 0x0a)], 2)) ∧
  perform_get_instruction_text example_opcodes [xc9] 0x150 =
    Ok (Some ([mkToken InstructionToken "ret" None], 1)).
Proof.
  split.
  - apply (instruction_text_tokens example_opcodes x3e [x0a] 0x150
             (mkOp "LD" 2 (Some "A") (Some "d8"))); [reflexivity|].
    split; [reflexivity|].
    exists (mkToken RegisterToken "a" None),
           (mkToken IntegerToken "0x0a" (Some 0x0a)).
    repeat split; reflexivity.
  - apply (instruction_text_tokens example_opcodes xc9 [] 0x150
             (mkOp "RET" 1 None None)); [reflexivity|].
    split; reflexivity.
Defined.

(** C10: for a descriptor in which [d8], [r8] or [a8] occurs but which does
    not begin with one of them, the token is a [PossibleAddressToken] whose
    value is the second byte and whose text is ["0x%.4x"] of it: ["0x00"] and
    two hexadecimal digits, not the ["0x%.2x"] text of the exact tags. *)
Theorem dereferenced_8bit_token (operand : string) (b0 b1 : byte)
    (rest : list byte) :
  (∃ pre tag post, In tag re_8 ∧ operand = (pre ++ tag ++ post)%string) ->
  ¬ (∃ tag post, In tag re_8 ∧ operand = (tag ++ post)%string) ->
  let value := byte_val b1 in
  let text := ("0x" ++ fmt_x_prec 4 value)%string in
  get_token operand (b0 :: b1 :: rest) =
    Ok (mkToken PossibleAddressToken text (Some value)) ∧
  text = ("0x00" ++ fmt_x_prec 2 value)%string ∧
  String.length text = 6%nat ∧
  text <> ("0x" ++ fmt_x_prec 2 value)%string.
Proof.
  intros Hs Hm value text. subst value text.
  apply re_search_spec in Hs.
  assert (Hm' : re_match re_8 operand = false).
  { destruct (re_match re_8 operand) eqn:E; [|reflexivity].
    exfalso. apply Hm, re_match_spec, E. }
  destruct (fmt_x_prec_byte b1) as [H4 H2].
  split; [|split; [|split]].
  - unfold get_token. rewrite Hs, Hm'. reflexivity.
  - rewrite H4. reflexivity.
  - rewrite H4, !length_append, H2. reflexivity.
  - rewrite H4. intros H. apply (f_equal String.length) in H.
    rewrite !length_append, H2 in H. discriminate H.
Qed.

Lemma dereferenced_8bit_token_witness :
  get_token "(a8)" [xe0; x0a] =
    Ok (mkToken PossibleAddressToken "0x000a" (Some 10)) ∧
  "0x000a" = "0x000a" ∧
  String.length "0x000a" = 6%nat ∧
  "0x000a" <> "0x0a".
Proof.
  apply (dereferenced_8bit_token "(a8)" xe0 x0a []).
  - exists "(", "a8", ")". split; [simpl; auto | reflexivity].
  - intros (tag & post & Hin & H). simpl in Hin.
    destruct Hin as [<- | [<- | [<- | []]]]; discriminate H.
Defined.

(** ** Further evaluations on the concrete table *)

Example call_edge :
  perform_get_instruction_info example_opcodes [xcd; x34; x12] 0x150 =
  Ok (Some (mkInfo 3 [mkBranch CallDestination (Some 0x1234)])).
Proof. reflexivity. Qed.

Example ret_edge :
  perform_get_instruction_info example_opcodes [xc9] 0x150 =
  Ok (Some (mkInfo 1 [mkBranch FunctionReturn None])).
Proof. reflexivity. Qed.

Example no_data :
  perform_get_instruction_info example_opcodes [] 0x150 = Raise IndexError.
Proof. reflexivity. Qed.

Example text_ld_a_d8 :
  perform_get_instruction_text example_opcodes [x3e; x0a] 0x150 =
  Ok (Some ([mkToken InstructionToken "ld" None;
             mkToken OperandSeparatorToken "    " None;
             mkToken RegisterToken "a" None;
             mkToken OperandSeparatorToken ", " None;
             mkToken IntegerToken "0x0a" (Some 10)], 2)).
Proof. reflexivity. Qed.

Example text_short_data :
  perform_get_instruction_text example_opcodes [x3e] 0x150 = Raise IndexError.
Proof. reflexivity. Qed.

(** * Further properties of the code *)

(** ** [perform_get_instruction_info]: outcomes *)

(** With a table entry, the method either finds its operand slice short and
    raises, or returns an info with the entry's length and one of the five
    edge lists. *)
Lemma info_outcome (opcodes : gmap string op_info) (b : byte)
    (rest : list byte) (addr : Z) (op : op_info) :
  opcodes !! opcode_key (byte_val b) = Some op ->
  let r := perform_get_instruction_info opcodes (b :: rest) addr in
  ((length rest < operand_bytes_read op (byte_val b))%nat ->
   r = Raise StructError) ∧
  ((operand_bytes_read op (byte_val b) <= length rest)%nat ->
   ∃ info, r = Ok (Some info) ∧ ii_length info = op_length op ∧
           edge_shape (ii_branches info)).
Proof.
  intros Hop r. subst r. rewrite info_entry, Hop.
  unfold operand_bytes_read, edge_shape.
  destruct (mnemonic op =? "JR")%string.
  { destruct rest as [|a rest]; simpl length; split; intros H; try lia.
    - reflexivity.
    - change (slice (b :: a :: rest) 1 2) with [a].
      eexists; split; [reflexivity|]. unfold jr_branches.
      repeat match goal with |- context [if ?c then _ else _] => destruct c end;
        (split; [reflexivity|]); simpl; eauto 10. }
  destruct (mnemonic op =? "JP")%string.
  { destruct (byte_val b =? 0xe9).
    - split; intros H; [simpl in H; lia|].
      eexists; split; [reflexivity|]. split; [reflexivity|]. simpl. eauto 10.
    - destruct rest as [|lo [|hi rest]]; simpl length; split; intros H;
        try lia; try reflexivity.
      change (slice (b :: lo :: hi :: rest) 1 3) with [lo; hi].
      rewrite unpack_H_value.
      eexists; split; [reflexivity|]. unfold jp_branches.
      repeat match goal with |- context [if ?c then _ else _] => destruct c end;
        (split; [reflexivity|]); simpl; eauto 10. }
  destruct (mnemonic op =? "RET")%string.
  { split; intros H; [simpl in H; lia|].
    eexists; split; [reflexivity|]. split; [reflexivity|]. simpl. eauto 10. }
  destruct (mnemonic op =? "CALL")%string.
  { destruct rest as [|lo [|hi rest]]; simpl length; split; intros H;
      try lia; try reflexivity.
    change (slice (b :: lo :: hi :: rest) 1 3) with [lo; hi].
    rewrite unpack_H_value.
    eexists; split; [reflexivity|]. split; [reflexivity|]. simpl. eauto 10. }
  split; intros H; [simpl in H; lia|].
  eexists; split; [reflexivity|]. split; [reflexivity|]. simpl. eauto 10.
Qed.

(** Whatever the method returns as info, the data began with a byte that has
    a table entry. *)
Lemma info_some_entry (opcodes : gmap string op_info) (data : list byte)
    (addr : Z) (info : InstructionInfo) :
  perform_get_instruction_info opcodes data addr = Ok (Some info) ->
  ∃ b rest op,
    data = b :: rest ∧ opcodes !! opcode_key (byte_val b) = Some op ∧
    (operand_bytes_read op (byte_val b) <= length rest)%nat.
Proof.
  intros Hr. destruct data as [|b rest]; [discriminate Hr|].
  destruct (opcodes !! opcode_key (byte_val b)) as [op|] eqn:Hop.
  - exists b, rest, op. split; [reflexivity|]. split; [exact Hop|].
    destruct (info_outcome opcodes b rest addr op Hop) as [Hshort _].
    destruct (Nat.le_gt_cases (operand_bytes_read op (byte_val b)) (length rest))
      as [Hle|Hgt]; [exact Hle|].
    rewrite (Hshort Hgt) in Hr. discriminate Hr.
  - rewrite info_entry, Hop in Hr. discriminate Hr.
Qed.

Lemma info_length_of_entry_aux (opcodes : gmap string op_info) (b : byte)
    (rest : list byte) (addr : Z) (info : InstructionInfo) :
  perform_get_instruction_info opcodes (b :: rest) addr = Ok (Some info) ->
  ∃ op, opcodes !! opcode_key (byte_val b) = Some op ∧
        ii_length info = op_length op.
Proof.
  intros Hr.
  destruct (info_some_entry opcodes (b :: rest) addr info Hr)
    as (b' & rest' & op & Heq & Hop & Hle).
  injection Heq as <- <-. exists op. split; [exact Hop|].
  destruct (info_outcome opcodes b rest addr op Hop) as [_ Hok].
  destruct (Hok Hle) as (info' & Hr' & Hlen & _).
  rewrite Hr in Hr'. injection Hr' as ->. exact Hlen.
Qed.

(** X1: the length of a returned info is the length of the table entry of
    the first byte, whatever the mnemonic and the bytes that follow. *)
Theorem info_length_of_entry (opcodes : gmap string op_info) (data : list byte)
    (addr : Z) (info : InstructionInfo) :
  perform_get_instruction_info opcodes data addr = Ok (Some info) ->
  ∃ b rest op,
    data = b :: rest ∧ opcodes !! opcode_key (byte_val b) = Some op ∧
    ii_length info = op_length op.
Proof.
  intros Hr.
  destruct (info_some_entry opcodes data addr info Hr)
    as (b & rest & op & -> & Hop & Hle).
  exists b, rest, op. split; [reflexivity|]. split; [exact Hop|].
  destruct (info_outcome opcodes b rest addr op Hop) as [_ Hok].
  destruct (Hok Hle) as (info' & Hr' & Hlen & _).
  rewrite Hr in Hr'. injection Hr' as ->. exact Hlen.
Qed.

Lemma info_length_of_entry_witness :
  ∃ b rest op,
    [xcd; x34; x12] = b :: rest ∧
    example_opcodes !! opcode_key (byte_val b) = Some op ∧
    ii_length (mkInfo 3 [mkBranch CallDestination (Some 0x1234)]) = op_length op.
Proof.
  apply (info_length_of_entry example_opcodes [xcd; x34; x12] 0x150).
  reflexivity.
Defined.

(** X2: a returned info carries no edge, or one edge to a target
    (unconditional or call), or one return without target, or a [TrueBranch]
    edge followed by a [FalseBranch] edge; never more than two edges, and
    never one of a pair alone. *)
Theorem info_edge_shape (opcodes : gmap string op_info) (data : list byte)
    (addr : Z) (info : InstructionInfo) :
  perform_get_instruction_info opcodes data addr = Ok (Some info) ->
  edge_shape (ii_branches info).
Proof.
  intros Hr.
  destruct (info_some_entry opcodes data addr info Hr)
    as (b & rest & op & -> & Hop & Hle).
  destruct (info_outcome opcodes b rest addr op Hop) as [_ Hok].
  destruct (Hok Hle) as (info' & Hr' & _ & Hshape).
  rewrite Hr in Hr'. injection Hr' as ->. exact Hshape.
Qed.

Lemma info_edge_shape_witness :
  edge_shape [mkBranch TrueBranch (Some 0x207); mkBranch FalseBranch (Some 0x202)].
Proof.
  apply (info_edge_shape example_opcodes [x28; x05] 0x200
           (mkInfo 2 [mkBranch TrueBranch (Some 0x207);
                      mkBranch FalseBranch (Some 0x202)])).
  reflexivity.
Defined.

(** X3: the method raises in two situations only: [IndexError] on empty
    data, and [struct.error] when the first byte has a table entry whose
    mnemonic makes the method unpack more bytes than follow. *)
Theorem info_raises_iff (opcodes : gmap string op_info) (data : list byte)
    (addr : Z) (e : exn) :
  perform_get_instruction_info opcodes data addr = Raise e <->
  (data = [] ∧ e = IndexError) ∨
  (∃ b rest op,
     data = b :: rest ∧ opcodes !! opcode_key (byte_val b) = Some op ∧
     (length rest < operand_bytes_read op (byte_val b))%nat ∧
     e = StructError).
Proof.
  split.
  - intros Hr. destruct data as [|b rest].
    + left. split; [reflexivity|]. injection Hr as <-. reflexivity.
    + right. destruct (opcodes !! opcode_key (byte_val b)) as [op|] eqn:Hop.
      * destruct (info_outcome opcodes b rest addr op Hop) as [Hshort Hok].
        destruct (Nat.le_gt_cases (operand_bytes_read op (byte_val b))
                    (length rest)) as [Hle|Hgt].
        -- destruct (Hok Hle) as (info & Hr' & _). rewrite Hr in Hr'.
           discriminate Hr'.
        -- exists b, rest, op. rewrite (Hshort Hgt) in Hr.
           injection Hr as <-. auto.
      * rewrite info_entry, Hop in Hr. discriminate Hr.
  - intros [[-> ->] | (b & rest & op & -> & Hop & Hlt & ->)].
    + reflexivity.
    + apply (info_outcome opcodes b rest addr op Hop). exact Hlt.
Qed.

(** ** [perform_get_instruction_info]: the remaining mnemonics *)

(** X4: an entry with mnemonic [CALL] yields the single edge
    [CallDestination] to the little-endian word after the opcode, at every
    address. *)
Theorem call_edge_word (opcodes : gmap string op_info) (b lo hi : byte)
    (rest : list byte) (addr : Z) (op : op_info) :
  opcodes !! opcode_key (byte_val b) = Some op ->
  mnemonic op = "CALL" ->
  perform_get_instruction_info opcodes (b :: lo :: hi :: rest) addr =
  Ok (Some (mkInfo (op_length op)
              [mkBranch CallDestination
                 (Some (byte_val lo + 256 * byte_val hi))])).
Proof.
  intros Hop Hmn. rewrite info_entry, Hop, Hmn.
  change (slice (b :: lo :: hi :: rest) 1 3) with [lo; hi].
  rewrite unpack_H_value. reflexivity.
Qed.

Lemma call_edge_word_witness :
  perform_get_instruction_info example_opcodes [xcd; x34; x12; xff] 0x4000 =
  Ok (Some (mkInfo 3 [mkBranch CallDestination (Some 0x1234)])).
Proof.
  apply (call_edge_word example_opcodes xcd x34 x12 [xff] 0x4000
           (mkOp "CALL" 3 (Some "a16") None)); reflexivity.
Defined.

(** X5: an entry with mnemonic [RET] yields the single edge [FunctionReturn]
    without target and reads nothing after the opcode; a conditional return
    gets no edge for the case in which it does not return. *)
Theorem ret_edge_only (opcodes : gmap string op_info) (b : byte)
    (rest : list byte) (addr : Z) (op : op_info) :
  opcodes !! opcode_key (byte_val b) = Some op ->
  mnemonic op = "RET" ->
  perform_get_instruction_info opcodes (b :: rest) addr =
  Ok (Some (mkInfo (op_length op) [mkBranch FunctionReturn None])).
Proof.
  intros Hop Hmn. rewrite info_entry, Hop, Hmn. reflexivity.
Qed.

Lemma ret_edge_only_witness :
  perform_get_instruction_info example_opcodes [xc0] 0x150 =
  Ok (Some (mkInfo 1 [mkBranch FunctionReturn None])).
Proof.
  apply (ret_edge_only example_opcodes xc0 [] 0x150
           (mkOp "RET" 1 (Some "NZ") None)); reflexivity.
Defined.

(** X6: an entry whose mnemonic is none of [JR], [JP], [RET], [CALL] yields
    no edge, and the info is returned even when only the opcode byte is
    there. *)
Theorem other_mnemonic_no_edge (opcodes : gmap string op_info) (b : byte)
    (rest : list byte) (addr : Z) (op : op_info) :
  opcodes !! opcode_key (byte_val b) = Some op ->
  mnemonic op <> "JR" -> mnemonic op <> "JP" ->
  mnemonic op <> "RET" -> mnemonic op <> "CALL" ->
  perform_get_instruction_info opcodes (b :: rest) addr =
  Ok (Some (mkInfo (op_length op) [])).
Proof.
  intros Hop H1 H2 H3 H4. rewrite info_entry, Hop.
  apply String.eqb_neq in H1, H2, H3, H4. rewrite H1, H2, H3, H4.
  reflexivity.
Qed.

Lemma other_mnemonic_no_edge_witness :
  perform_get_instruction_info example_opcodes [xea] 0x150 =
  Ok (Some (mkInfo 3 [])).
Proof.
  apply (other_mnemonic_no_edge example_opcodes xea [] 0x150
           (mkOp "LD" 3 (Some "(a16)") (Some "A")));
    [reflexivity | discriminate..].
Defined.

(** ** The bytes the methods look at *)

Lemma get_token_window (operand : string) (b0 b1 b2 : byte) (rest : list byte) :
  get_token operand (b0 :: b1 :: b2 :: rest) = get_token operand [b0; b1; b2].
Proof. reflexivity. Qed.

(** X7: both methods look at the first three bytes of the data at most
    ([max_instr_length]): what follows changes neither the info nor the
    tokens nor a failure. *)
Theorem methods_read_three_bytes (opcodes : gmap string op_info)
    (data : list byte) (addr : Z) :
  perform_get_instruction_info opcodes data addr =
    perform_get_instruction_info opcodes (take 3 data) addr ∧
  perform_get_instruction_text opcodes data addr =
    perform_get_instruction_text opcodes (take 3 data) addr.
Proof.
  destruct data as [|b [|b1 [|b2 rest]]]; split; reflexivity.
Qed.

(** X8: the two methods agree on what is an instruction.  One returns [None]
    exactly when the other does, and when both return, the length beside the
    tokens is the length of the info. *)
Theorem info_text_agree (opcodes : gmap string op_info) (data : list byte)
    (addr : Z) :
  (perform_get_instruction_info opcodes data addr = Ok None <->
   perform_get_instruction_text opcodes data addr = Ok None) ∧
  (∀ info tokens n,
     perform_get_instruction_info opcodes data addr = Ok (Some info) ->
     perform_get_instruction_text opcodes data addr = Ok (Some (tokens, n)) ->
     n = ii_length info).
Proof.
  destruct data as [|b rest].
  { split; [split; discriminate | intros ? ? ? H; discriminate H]. }
  split.
  - destruct (opcodes !! opcode_key (byte_val b)) as [op|] eqn:Hop;
      [|rewrite info_entry, text_entry, Hop; split; reflexivity].
    split; intros H; exfalso; [|rewrite text_entry, Hop in H].
    + destruct (info_outcome opcodes b rest addr op Hop) as [Hshort Hok].
      destruct (Nat.le_gt_cases (operand_bytes_read op (byte_val b))
                  (length rest)) as [Hle|Hgt].
      * destruct (Hok Hle) as (info & Hr & _). rewrite Hr in H. discriminate H.
      * rewrite (Hshort Hgt) in H. discriminate H.
    + destruct (operand1 op) as [o1|]; [|discriminate H].
      destruct (get_token o1 (b :: rest)) as [t1|]; [|discriminate H].
      destruct (operand2 op) as [o2|]; [|discriminate H].
      destruct (get_token o2 (b :: rest)) as [t2|]; discriminate H.
  - intros info tokens n Hi Ht.
    destruct (info_length_of_entry_aux opcodes b rest addr info Hi)
      as (op & Hop & ->).
    rewrite text_entry, Hop in Ht.
    destruct (operand1 op) as [o1|]; [|injection Ht as _ <-; reflexivity].
    destruct (get_token o1 (b :: rest)) as [t1|]; [|discriminate Ht].
    destruct (operand2 op) as [o2|]; [|injection Ht as _ <-; reflexivity].
    destruct (get_token o2 (b :: rest)) as [t2|]; [|discriminate Ht].
    injection Ht as _ <-. reflexivity.
Qed.

(** ** Addresses and table entries *)

(** X9: relative jumps are position independent.  For an entry with mnemonic
    [JR], decoding the same bytes [k] further on gives the same info with
    every target moved by [k]. *)
Theorem jr_targets_move_with_address (opcodes : gmap string op_info)
    (b : byte) (rest : list byte) (addr k : Z) (op : op_info)
    (info : InstructionInfo) :
  opcodes !! opcode_key (byte_val b) = Some op ->
  mnemonic op = "JR" ->
  perform_get_instruction_info opcodes (b :: rest) addr = Ok (Some info) ->
  perform_get_instruction_info opcodes (b :: rest) (addr + k) =
  Ok (Some (shift_info k info)).
Proof.
  intros Hop Hmn Hr. rewrite info_entry, Hop, Hmn in *.
  destruct rest as [|arg rest]; [discriminate Hr|].
  change (slice (b :: arg :: rest) 1 2) with [arg] in *.
  injection Hr as <-. simpl. do 2 f_equal.
  unfold jr_branches, shift_info, jr_back.
  repeat match goal with |- context [if ?c then _ else _] => destruct c end;
    unfold add_branch; simpl; repeat (f_equal; try lia).
Qed.

Lemma jr_targets_move_with_address_witness :
  perform_get_instruction_info example_opcodes [x20; xfe] (0x200 + 0x4000) =
  Ok (Some (shift_info 0x4000
              (mkInfo 2 [mkBranch TrueBranch (Some 0x202);
                         mkBranch FalseBranch (Some 0x200)]))).
Proof.
  apply (jr_targets_move_with_address example_opcodes x20 [xfe] 0x200 0x4000
           (mkOp "JR" 2 (Some "NZ") (Some "r8"))); reflexivity.
Defined.

Lemma opcode_key_of_Z (z : Z) : 0 <= z -> opcode_key z = HexString.of_Z z.
Proof. intros H. destruct z as [|p|p]; [reflexivity | reflexivity | lia]. Qed.

(** The key of a byte reads back as the byte. *)
Lemma opcode_key_to_Z (b : byte) :
  HexString.to_Z (opcode_key (byte_val b)) = byte_val b.
Proof.
  rewrite opcode_key_of_Z by apply byte_val_range.
  apply HexString.to_Z_of_Z.
Qed.

Lemma opcode_key_inj (a b : byte) :
  opcode_key (byte_val a) = opcode_key (byte_val b) -> a = b.
Proof.
  intros H. apply byte_val_inj.
  rewrite <- (opcode_key_to_Z a), <- (opcode_key_to_Z b), H. reflexivity.
Qed.

(** X10: the keys ["0x%x" % opcode] keep the 256 opcodes apart.  Setting the
    table entry of one opcode changes neither the info nor the tokens of
    data that begins with another opcode. *)
Theorem entry_of_other_opcode (opcodes : gmap string op_info) (a b : byte)
    (op : op_info) (rest : list byte) (addr : Z) :
  a <> b ->
  perform_get_instruction_info (<[opcode_key (byte_val a) := op]> opcodes)
    (b :: rest) addr =
    perform_get_instruction_info opcodes (b :: rest) addr ∧
  perform_get_instruction_text (<[opcode_key (byte_val a) := op]> opcodes)
    (b :: rest) addr =
    perform_get_instruction_text opcodes (b :: rest) addr.
Proof.
  intros Hne.
  assert (Hk : opcode_key (byte_val a) ≠ opcode_key (byte_val b))
    by (intros H; apply Hne, opcode_key_inj, H).
  rewrite !info_entry, !text_entry, (lookup_insert_ne opcodes _ _ op Hk).
  split; reflexivity.
Qed.

Lemma entry_of_other_opcode_witness :
  perform_get_instruction_info
    (<[opcode_key (byte_val xcb) := mkOp "PREFIX" 1 (Some "CB") None]>
       example_opcodes) [x18; xfe] 0x200 =
    perform_get_instruction_info example_opcodes [x18; xfe] 0x200 ∧
  perform_get_instruction_text
    (<[opcode_key (byte_val xcb) := mkOp "PREFIX" 1 (Some "CB") None]>
       example_opcodes) [x18; xfe] 0x200 =
    perform_get_instruction_text example_opcodes [x18; xfe] 0x200.
Proof.
  apply (entry_of_other_opcode example_opcodes xcb x18
           (mkOp "PREFIX" 1 (Some "CB") None) [xfe] 0x200).
  discriminate.
Defined.

(** ** [get_token] *)

Lemma re_search_occurs (alts : list string) (s : string) :
  re_search alts s = true <-> occurs_in alts s.
Proof. apply re_search_spec. Qed.

Lemma re_match_begins (alts : list string) (s : string) :
  re_match alts s = true <-> begins_with alts s.
Proof. apply re_match_spec. Qed.

Lemma begins_occurs (alts : list string) (s : string) :
  begins_with alts s -> occurs_in alts s.
Proof. intros (tag & post & Hin & ->). exists "", tag, post. auto. Qed.

Lemma re_search_false (alts : list string) (s : string) :
  ¬ occurs_in alts s -> re_search alts s = false.
Proof.
  intros H. destruct (re_search alts s) eqn:E; [|reflexivity].
  exfalso. apply H, re_search_occurs, E.
Qed.

Lemma re_match_false (alts : list string) (s : string) :
  ¬ begins_with alts s -> re_match alts s = false.
Proof.
  intros H. destruct (re_match alts s) eqn:E; [|reflexivity].
  exfalso. apply H, re_match_begins, E.
Qed.

Lemma all_bits_spec (k : nat) (f : Z -> bool) :
  ∀ acc w, all_bits k acc f = true ->
    acc * 2 ^ Z.of_nat k <= w < (acc + 1) * 2 ^ Z.of_nat k -> f w = true.
Proof.
  induction k as [|k IH]; intros acc w Hall Hw.
  - simpl in Hall. change (2 ^ Z.of_nat 0) with 1 in Hw.
    replace w with acc by lia. exact Hall.
  - simpl in Hall. apply andb_true_iff in Hall as [H0 H1].
    rewrite Nat2Z.inj_succ, Z.pow_succ_r in Hw by lia.
    pose proof (Z.pow_pos_nonneg 2 (Z.of_nat k)) as Hp.
    destruct (Z.lt_ge_cases w ((2 * acc + 1) * 2 ^ Z.of_nat k)).
    + apply (IH (2 * acc)); [exact H0 | nia].
    + apply (IH (2 * acc + 1)); [exact H1 | nia].
Qed.

(** Every 16-bit word is printed by ["%.4x"] with four digits. *)
Lemma fmt_x_prec_4_length (w : Z) :
  0 <= w < 65536 -> String.length (fmt_x_prec 4 w) = 4%nat.
Proof.
  intros Hw. apply Nat.eqb_eq.
  apply (all_bits_spec 16
           (fun v => Nat.eqb (String.length (fmt_x_prec 4 v)) 4) 0 w).
  - vm_compute. reflexivity.
  - change (2 ^ Z.of_nat 16) with 65536. lia.
Qed.

Lemma raw_to_N_zeros (k : nat) (s : string) :
  HexString.Raw.to_N (zeros k ++ s)%string 0%N = HexString.Raw.to_N s 0%N.
Proof. induction k as [|k IH]; [reflexivity | exact IH]. Qed.

(** The text ["0x%.<prec>x" % v] reads back as [v]. *)
Lemma fmt_x_prec_to_Z (prec : nat) (v : Z) :
  0 <= v -> HexString.to_Z ("0x" ++ fmt_x_prec prec v)%string = v.
Proof.
  intros Hv. unfold HexString.to_Z, fmt_x_prec.
  change (HexString.to_N ("0x" ++ ?s)%string) with (HexString.Raw.to_N s 0%N).
  rewrite raw_to_N_zeros.
  destruct v as [|p|p]; [reflexivity | | lia].
  unfold fmt_x. rewrite HexString.Raw.to_N_of_pos. reflexivity.
Qed.

(** X11: a descriptor that begins with [d8], [r8] or [a8] is rendered as an
    [IntegerToken] whose value is the second byte of the data and whose text
    is ["0x"] and two hexadecimal digits. *)
Theorem exact_8bit_token (operand : string) (b0 b1 : byte) (rest : list byte) :
  begins_with re_8 operand ->
  let value := byte_val b1 in
  let text := ("0x" ++ fmt_x_prec 2 value)%string in
  get_token operand (b0 :: b1 :: rest) =
    Ok (mkToken IntegerToken text (Some value)) ∧
  String.length text = 4%nat.
Proof.
  intros Hb value text. subst value text.
  pose proof (proj2 (re_search_occurs re_8 operand) (begins_occurs _ _ Hb)) as Hs.
  apply re_match_begins in Hb.
  split.
  - unfold get_token. rewrite Hs, Hb. reflexivity.
  - rewrite length_append, (proj2 (fmt_x_prec_byte b1)). reflexivity.
Qed.

Lemma exact_8bit_token_witness :
  get_token "d8" [x3e; xa7] = Ok (mkToken IntegerToken "0xa7" (Some 0xa7)) ∧
  String.length "0xa7" = 4%nat.
Proof.
  apply (exact_8bit_token "d8" x3e xa7 []).
  exists "d8", "". split; [simpl; auto | reflexivity].
Defined.

(** X12: a descriptor without 8-bit tag in which [d16], [r16] or [a16]
    occurs is rendered with the little-endian word after the opcode as value
    and ["0x"] and four hexadecimal digits as text; the token is an
    [IntegerToken] when the descriptor begins with the tag and a
    [PossibleAddressToken] when it does not. *)
Theorem word_token (operand : string) (b0 lo hi : byte) (rest : list byte) :
  ¬ occurs_in re_8 operand ->
  occurs_in re_16 operand ->
  let value := byte_val lo + 256 * byte_val hi in
  let text := ("0x" ++ fmt_x_prec 4 value)%string in
  (begins_with re_16 operand ->
   get_token operand (b0 :: lo :: hi :: rest) =
     Ok (mkToken IntegerToken text (Some value))) ∧
  (¬ begins_with re_16 operand ->
   get_token operand (b0 :: lo :: hi :: rest) =
     Ok (mkToken PossibleAddressToken text (Some value))) ∧
  String.length text = 6%nat.
Proof.
  intros H8 H16 value text. subst value text.
  apply re_search_false in H8. apply re_search_occurs in H16.
  assert (Hg : ∀ k, re_match re_16 operand = k ->
    get_token operand (b0 :: lo :: hi :: rest) =
    Ok (mkToken (if k then IntegerToken else PossibleAddressToken)
          ("0x" ++ fmt_x_prec 4 (byte_val lo + 256 * byte_val hi))%string
          (Some (byte_val lo + 256 * byte_val hi)))).
  { intros k Hk. unfold get_token. rewrite H8, H16, Hk.
    change (slice (b0 :: lo :: hi :: rest) 1 3) with [lo; hi].
    rewrite unpack_H_value. destruct k; reflexivity. }
  split; [|split].
  - intros Hb. apply (Hg true), re_match_begins, Hb.
  - intros Hb. apply (Hg false), re_match_false, Hb.
  - pose proof (byte_val_range lo). pose proof (byte_val_range hi).
    rewrite length_append, fmt_x_prec_4_length by lia. reflexivity.
Qed.

Lemma word_token_witness :
  (begins_with re_16 "(a16)" ->
   get_token "(a16)" [xea; x00; xc0] =
     Ok (mkToken IntegerToken "0xc000" (Some 0xc000))) ∧
  (¬ begins_with re_16 "(a16)" ->
   get_token "(a16)" [xea; x00; xc0] =
     Ok (mkToken PossibleAddressToken "0xc000" (Some 0xc000))) ∧
  String.length "0xc000" = 6%nat.
Proof.
  apply (word_token "(a16)" xea x00 xc0 []).
  - intros H. apply re_search_occurs in H. discriminate H.
  - exists "(", "a16", ")". split; [simpl; auto | reflexivity].
Defined.

(** X13: a descriptor in which none of the six data tags occurs (a register,
    a flag, a dereferenced register pair, a literal) is rendered as a
    [RegisterToken] with the lower-cased descriptor as text and no value,
    without looking at the data. *)
Theorem register_token (operand : string) (data : list byte) :
  ¬ occurs_in re_8 operand ->
  ¬ occurs_in re_16 operand ->
  get_token operand data = Ok (mkToken RegisterToken (lower operand) None).
Proof.
  intros H8 H16. apply re_search_false in H8, H16.
  unfold get_token. rewrite H8, H16.
  destruct (re_search re_reg operand); [destruct (re_match re_reg operand)|];
    reflexivity.
Qed.

Lemma register_token_witness :
  get_token "(HL)" [] = Ok (mkToken RegisterToken "(hl)" None).
Proof.
  apply (register_token "(HL)" []);
    intros H; apply re_search_occurs in H; discriminate H.
Defined.

(** X14: [get_token] raises in two situations only: [IndexError] when an
    8-bit tag occurs in the descriptor and the data has no second byte, and
    [struct.error] when no 8-bit tag but a 16-bit tag occurs and the data has
    fewer than three bytes. *)
Theorem get_token_raises_iff (operand : string) (data : list byte) (e : exn) :
  get_token operand data = Raise e <->
  (occurs_in re_8 operand ∧ (length data < 2)%nat ∧ e = IndexError) ∨
  (¬ occurs_in re_8 operand ∧ occurs_in re_16 operand ∧
   (length data < 3)%nat ∧ e = StructError).
Proof.
  rewrite <- !re_search_occurs. unfold get_token.
  destruct (re_search re_8 operand).
  { destruct (re_match re_8 operand);
      destruct data as [|b0 [|b1 rest]]; simpl;
      (split;
       [ intros H; try discriminate H; injection H as <-; left;
         repeat split; lia
       | intros [(_ & H & He) | (H & _)];
         [ try lia; rewrite He; reflexivity | exfalso; auto ] ]). }
  destruct (re_search re_16 operand).
  { destruct (re_match re_16 operand);
      destruct data as [|b0 [|lo [|hi rest]]];
      try (change (slice (b0 :: lo :: hi :: rest) 1 3) with [lo; hi];
           rewrite unpack_H_value);
      simpl;
      (split;
       [ intros H; try discriminate H; injection H as <-; right;
         repeat split; auto; lia
       | intros [(H & _) | (_ & _ & H & He)];
         [ discriminate H | try lia; rewrite He; reflexivity ] ]). }
  split.
  - destruct (re_search re_reg operand); [destruct (re_match re_reg operand)|];
      discriminate.
  - intros [(H & _) | (_ & H & _)]; discriminate H.
Qed.

(** X15: the text of a token that carries a value denotes that value: read
    as a hexadecimal literal it gives the value back, and the value is a
    16-bit number.  A token without value is a [RegisterToken] with the
    lower-cased descriptor. *)
Theorem token_text_denotes_value (operand : string) (data : list byte)
    (tok : InstructionTextToken) :
  get_token operand data = Ok tok ->
  match tok_value tok with
  | Some v => 0 <= v < 65536 ∧ HexString.to_Z (tok_text tok) = v
  | None => tok_type tok = RegisterToken ∧ tok_text tok = lower operand
  end.
Proof.
  unfold get_token. intros H.
  destruct (re_search re_8 operand).
  { destruct (re_match re_8 operand);
      destruct data as [|b0 [|b1 rest]]; try discriminate H;
      pose proof (byte_val_range b1);
      injection H as <-; cbn [tok_value tok_text];
      (split; [lia | apply fmt_x_prec_to_Z; lia]). }
  destruct (re_search re_16 operand).
  { destruct (re_match re_16 operand);
      destruct data as [|b0 [|lo [|hi rest]]]; try discriminate H;
      change (slice (b0 :: lo :: hi :: rest) 1 3) with [lo; hi] in H;
      rewrite unpack_H_value in H;
      pose proof (byte_val_range lo); pose proof (byte_val_range hi);
      injection H as <-; cbn [tok_value tok_text];
      (split; [lia | apply fmt_x_prec_to_Z; lia]). }
  destruct (re_search re_reg operand); [destruct (re_match re_reg operand)|];
    injection H as <-; split; reflexivity.
Qed.

Lemma token_text_denotes_value_witness :
  0 <= 0xc000 < 65536 ∧ HexString.to_Z "0xc000" = 0xc000.
Proof.
  apply (token_text_denotes_value "(a16)" [xea; x00; xc0]
           (mkToken PossibleAddressToken "0xc000" (Some 0xc000))).
  reflexivity.
Defined.

(** ** [GBView]: accepting and loading a file *)

Lemma read_length (raw : list byte) (offset len : Z) :
  0 <= offset -> 0 <= len ->
  Z.of_nat (length (GBView.read raw offset len)) =
  Z.min len (Z.max 0 (Z.of_nat (length raw) - offset)).
Proof.
  intros Ho Hl. unfold GBView.read. rewrite length_take, length_drop. lia.
Qed.

Lemma read_lookup (raw : list byte) (offset len : Z) (i : nat) :
  (i < Z.to_nat len)%nat ->
  GBView.read raw offset len !! i = raw !! (Z.to_nat offset + i)%nat.
Proof.
  intros Hi. unfold GBView.read.
  rewrite lookup_take_lt by exact Hi. apply lookup_drop.
Qed.

(** X16: [is_valid_for_data] accepts exactly the files that consist of
    [0x104] bytes, the 48 bytes of the signature, and at least [0x1C] more
    bytes. *)
Theorem is_valid_for_data_iff (data : list byte) :
  GBView.is_valid_for_data data = true <->
  ∃ pre post,
    data = (pre ++ GBView.ROM_SIG ++ post)%list ∧
    Z.of_nat (length pre) = 0x104 ∧ 0x1C <= Z.of_nat (length post).
Proof.
  unfold GBView.is_valid_for_data. split.
  - intros H. case_bool_decide as Hsig; [discriminate H|].
    case_bool_decide as Hhdr; [discriminate H|]. clear H.
    pose proof (f_equal (fun l => Z.of_nat (length l)) Hsig) as Hlen.
    cbv beta in Hlen.
    rewrite read_length in Hlen, Hhdr by (vm_compute; discriminate).
    change (Z.of_nat (length GBView.ROM_SIG)) with 48 in Hlen.
    change GBView.ROM_SIG_LEN with 48 in Hlen.
    change GBView.ROM_SIG_OFFSET with 260 in Hlen.
    change GBView.HDR_SIZE with 28 in Hhdr.
    change GBView.HDR_OFFSET with 308 in Hhdr.
    exists (take 260 data), (drop 308 data).
    split; [|rewrite length_take, length_drop; lia].
    rewrite <- Hsig. unfold GBView.read.
    change (Z.to_nat GBView.ROM_SIG_LEN) with 48%nat.
    change (Z.to_nat GBView.ROM_SIG_OFFSET) with 260%nat.
    rewrite <- (take_drop 260 data) at 1. f_equal.
    rewrite <- (take_drop 48 (drop 260 data)) at 1. f_equal.
    rewrite drop_drop. reflexivity.
  - intros (pre & post & -> & Hpre & Hpost).
    assert (Hp : length pre = 260%nat) by (change 0x104 with 260 in Hpre; lia).
    assert (Hsig : GBView.read (pre ++ GBView.ROM_SIG ++ post) GBView.ROM_SIG_OFFSET
                     GBView.ROM_SIG_LEN = GBView.ROM_SIG).
    { unfold GBView.read.
      change (Z.to_nat GBView.ROM_SIG_LEN) with (length GBView.ROM_SIG).
      change (Z.to_nat GBView.ROM_SIG_OFFSET) with 260%nat.
      rewrite <- Hp, drop_app_length. apply take_app_length. }
    rewrite Hsig.
    case_bool_decide as H1; [exfalso; apply H1; reflexivity|].
    case_bool_decide as H2; [|reflexivity].
    exfalso. apply H2. rewrite read_length by (vm_compute; discriminate).
    rewrite !length_app, Hp.
    change (length GBView.ROM_SIG) with 48%nat.
    change GBView.HDR_SIZE with 28. change GBView.HDR_OFFSET with 308.
    change 0x1C with 28 in Hpost. lia.
Qed.

Lemma example_rom_valid : GBView.is_valid_for_data example_rom = true.
Proof. reflexivity. Qed.

(** The body of [init] runs through exactly when the header read has all its
    [0x1C] bytes, and then makes the calls [init_calls]. *)
Lemma init_try_cases (big_endian : bool) (raw : list byte) :
  let hdr := GBView.read raw GBView.HDR_OFFSET GBView.HDR_SIZE in
  (length hdr = 28%nat ->
   ∃ h, GBView.init_try big_endian raw = Ok (h, init_calls)) ∧
  ((length hdr < 28)%nat ->
   ∃ e, GBView.init_try big_endian raw = Raise e).
Proof.
  intros hdr. unfold GBView.init_try. fold hdr. clearbody hdr.
  split; intros Hlen.
  - do 28 (destruct hdr as [|? hdr]; [discriminate Hlen|]).
    destruct hdr; [|discriminate Hlen].
    destruct big_endian; eexists; reflexivity.
  - do 28 (destruct hdr as [|? hdr];
           [destruct big_endian; eexists; reflexivity|]).
    simpl in Hlen. lia.
Qed.

Lemma hdr_length_cases (raw : list byte) :
  let hdr := GBView.read raw GBView.HDR_OFFSET GBView.HDR_SIZE in
  (0x150 <= Z.of_nat (length raw) -> length hdr = 28%nat) ∧
  (Z.of_nat (length raw) < 0x150 -> (length hdr < 28)%nat).
Proof.
  intros hdr.
  pose proof (read_length raw GBView.HDR_OFFSET GBView.HDR_SIZE) as H.
  fold hdr in H.
  change GBView.HDR_SIZE with 28 in H. change GBView.HDR_OFFSET with 308 in H.
  change 0x150 with 336. split; intros Hl; lia.
Qed.

Lemma init_try_ok_calls (big_endian : bool) (raw : list byte)
    (h : GBView.header) (calls : list GBView.host_call) :
  GBView.init_try big_endian raw = Ok (h, calls) ->
  calls = init_calls ∧ 0x150 <= Z.of_nat (length raw).
Proof.
  intros H.
  destruct (init_try_cases big_endian raw) as [Hok Hshort].
  destruct (hdr_length_cases raw) as [Hlong Hlt].
  destruct (Z.le_gt_cases 0x150 (Z.of_nat (length raw))) as [Hle|Hgt].
  - destruct (Hok (Hlong Hle)) as [h' Hr]. rewrite Hr in H.
    injection H as _ <-. auto.
  - destruct (Hshort (Hlt ltac:(lia))) as [e Hr]. rewrite Hr in H.
    discriminate H.
Qed.

(** X17: [init] returns [True] exactly for the files of at least [0x150]
    bytes, whatever the bytes are; so it returns [True] on every file that
    [is_valid_for_data] accepts, and also on files without the signature. *)
Theorem init_iff_length (big_endian : bool) (raw : list byte) :
  (GBView.init big_endian raw = true <-> 0x150 <= Z.of_nat (length raw)) ∧
  (GBView.is_valid_for_data raw = true -> GBView.init big_endian raw = true).
Proof.
  assert (Hiff : GBView.init big_endian raw = true <->
                 0x150 <= Z.of_nat (length raw)).
  { unfold GBView.init.
    destruct (init_try_cases big_endian raw) as [Hok Hshort].
    destruct (hdr_length_cases raw) as [Hlong Hlt].
    split.
    - intros H.
      destruct (Z.le_gt_cases 0x150 (Z.of_nat (length raw))) as [Hle|Hgt];
        [exact Hle|].
      destruct (Hshort (Hlt ltac:(lia))) as [e Hr]. rewrite Hr in H.
      discriminate H.
    - intros Hle. destruct (Hok (Hlong Hle)) as [h Hr]. rewrite Hr.
      reflexivity. }
  split; [exact Hiff|].
  intros Hv. apply Hiff. apply is_valid_for_data_iff in Hv
    as (pre & post & -> & Hpre & Hpost).
  rewrite !length_app. change (length GBView.ROM_SIG) with 48%nat.
  change 0x104 with 260 in Hpre. change 0x1C with 28 in Hpost.
  change 0x150 with 336. lia.
Qed.

(** X18: after [init], the attributes hold the header fields of the file at
    their absolute offsets: the title is the 15 bytes from [0x134], the
    one-byte fields are the bytes at [0x143] and [0x146] to [0x14D], and the
    two-byte fields are the bytes at [0x144], [0x145] and at [0x14E],
    [0x14F], combined in the byte order of the machine. *)
Theorem init_header_fields (big_endian : bool) (raw : list byte)
    (h : GBView.header) (calls : list GBView.host_call) :
  GBView.init_try big_endian raw = Ok (h, calls) ->
  GBView.rom_title h = take 15 (drop 0x134 raw) ∧
  length (GBView.rom_title h) = 15%nat ∧
  byte_at raw 0x143 = Some (GBView.color h) ∧
  byte_at raw 0x146 = Some (GBView.gb_type h) ∧
  byte_at raw 0x147 = Some (GBView.cart_type h) ∧
  byte_at raw 0x148 = Some (GBView.rom_banks h) ∧
  byte_at raw 0x149 = Some (GBView.ram_banks h) ∧
  byte_at raw 0x14A = Some (GBView.destination_code h) ∧
  byte_at raw 0x14B = Some (GBView.old_licensee_code h) ∧
  byte_at raw 0x14C = Some (GBView.mask_rom_version h) ∧
  byte_at raw 0x14D = Some (GBView.complement_check h) ∧
  (∃ b0 b1, byte_at raw 0x144 = Some b0 ∧ byte_at raw 0x145 = Some b1 ∧
     GBView.licensee_code h =
       if big_endian then 256 * b0 + b1 else b0 + 256 * b1) ∧
  (∃ b0 b1, byte_at raw 0x14E = Some b0 ∧ byte_at raw 0x14F = Some b1 ∧
     GBView.checksum h =
       if big_endian then 256 * b0 + b1 else b0 + 256 * b1).
Proof.
  intros H.
  destruct (init_try_ok_calls _ _ _ _ H) as [_ Hlen].
  destruct (hdr_length_cases raw) as [Hlong _]. specialize (Hlong Hlen).
  assert (Hat : ∀ i, (i < 28)%nat ->
            byte_at raw (308 + i) =
            byte_val <$> GBView.read raw GBView.HDR_OFFSET GBView.HDR_SIZE !! i).
  { intros i Hi. unfold byte_at. rewrite read_lookup by exact Hi. reflexivity. }
  unfold GBView.init_try in H.
  remember (GBView.read raw GBView.HDR_OFFSET GBView.HDR_SIZE) as hdr eqn:Hhdr.
  assert (Htitle : take 15 (drop 0x134 raw) = slice hdr 0 15).
  { rewrite Hhdr. unfold GBView.read, slice.
    change (Z.to_nat GBView.HDR_SIZE) with 28%nat.
    change (Z.to_nat GBView.HDR_OFFSET) with 308%nat.
    change (15 - 0)%nat with 15%nat. rewrite drop_0, take_take.
    reflexivity. }
  rewrite Htitle. clear Htitle Hhdr.
  do 28 (destruct hdr as [|? hdr]; [discriminate Hlong|]).
  destruct hdr; [|discriminate Hlong].
  pose proof (fun lo hi => lor_shiftl_8 (byte_val lo) (byte_val hi)
                (byte_val_range lo) (proj1 (byte_val_range hi))) as Hle.
  assert (Hf : ∀ i v, (i < 28)%nat ->
            byte_val <$> (b :: b0 :: b1 :: b2 :: b3 :: b4 :: b5 :: b6 :: b7
              :: b8 :: b9 :: b10 :: b11 :: b12 :: b13 :: b14 :: b15 :: b16
              :: b17 :: b18 :: b19 :: b20 :: b21 :: b22 :: b23 :: b24 :: b25
              :: b26 :: []) !! i = Some v ->
            byte_at raw (308 + i) = Some v).
  { intros i v Hi Hv. rewrite (Hat i Hi). exact Hv. }
  clear Hat.
  destruct big_endian; simpl in H; injection H as <-;
    cbn [GBView.rom_title GBView.color GBView.gb_type GBView.cart_type
         GBView.rom_banks GBView.ram_banks GBView.destination_code
         GBView.old_licensee_code GBView.mask_rom_version
         GBView.complement_check GBView.licensee_code GBView.checksum];
    (split; [reflexivity|]); (split; [reflexivity|]);
    (split; [apply (Hf 15%nat); [lia | reflexivity]|]);
    (split; [apply (Hf 18%nat); [lia | reflexivity]|]);
    (split; [apply (Hf 19%nat); [lia | reflexivity]|]);
    (split; [apply (Hf 20%nat); [lia | reflexivity]|]);
    (split; [apply (Hf 21%nat); [lia | reflexivity]|]);
    (split; [apply (Hf 22%nat); [lia | reflexivity]|]);
    (split; [apply (Hf 23%nat); [lia | reflexivity]|]);
    (split; [apply (Hf 24%nat); [lia | reflexivity]|]);
    (split; [apply (Hf 25%nat); [lia | reflexivity]|]);
    (split;
     [ exists (byte_val b15), (byte_val b16);
       split; [apply (Hf 16%nat); [lia | reflexivity]|];
       split; [apply (Hf 17%nat); [lia | reflexivity]|]
     | exists (byte_val b25), (byte_val b26);
       split; [apply (Hf 26%nat); [lia | reflexivity]|];
       split; [apply (Hf 27%nat); [lia | reflexivity]|] ]).
  all: rewrite ?Hle; try lia.
  all: rewrite Z.lor_comm, Hle; lia.
Qed.

Lemma example_rom_init :
  GBView.init_try false example_rom = Ok (example_attributes, init_calls).
Proof. reflexivity. Qed.

Lemma init_header_fields_witness :
  byte_at example_rom 0x147 = Some (GBView.cart_type example_attributes).
Proof.
  apply (init_header_fields false example_rom example_attributes init_calls).
  reflexivity.
Defined.

(** ** [GBView]: the memory map *)

(** The regions between the segment bounds. *)
Lemma address_region (addr : Z) :
  addr < 0 ∨ 0 <= addr < 0x4000 ∨ 0x4000 <= addr < 0x8000 ∨
  0x8000 <= addr < 0xA000 ∨ 0xA000 <= addr < 0xC000 ∨
  0xC000 <= addr < 0xE000 ∨ 0xE000 <= addr < 0xFE00 ∨
  0xFE00 <= addr < 0xFEA0 ∨ 0xFEA0 <= addr < 0xFF80 ∨
  0xFF80 <= addr < 0x10000 ∨ 0x10000 <= addr.
Proof. lia. Qed.

(** Settle each comparison of the goal from the bounds at hand. *)
Ltac decide_comparisons :=
  repeat match goal with
         | |- context [?a <=? ?b] =>
           first [ rewrite (proj2 (Z.leb_le a b)) by lia
                 | rewrite (proj2 (Z.leb_gt a b)) by lia ]
         | |- context [?a <? ?b] =>
           first [ rewrite (proj2 (Z.ltb_lt a b)) by lia
                 | rewrite (proj2 (Z.ltb_ge a b)) by lia ]
         end.

(** X19: the segments that [init] adds tile the address space that
    [perform_get_start] and [perform_get_length] announce: every address
    from [0] below [0x10000] lies in exactly one segment, and no other
    address lies in any. *)
Theorem segments_tile_address_space (big_endian : bool) (raw : list byte)
    (h : GBView.header) (calls : list GBView.host_call) (addr : Z) :
  GBView.init_try big_endian raw = Ok (h, calls) ->
  covering addr (segments_of calls) =
  if (GBView.perform_get_start <=? addr) &&
     (addr <? GBView.perform_get_start + GBView.perform_get_length)
  then 1%nat else 0%nat.
Proof.
  intros H. destruct (init_try_ok_calls _ _ _ _ H) as [-> _].
  change (segments_of init_calls) with
    [ (0, 0x4000, 0, 0x4000); (0x4000, 0x4000, 0x4000, 0x4000);
      (0x8000, 0x2000, 0, 0); (0xA000, 0x2000, 0, 0); (0xC000, 0x2000, 0, 0);
      (0xE000, 0x1E00, 0, 0); (0xFE00, 0xA0, 0, 0); (0xFEA0, 0xE0, 0, 0);
      (0xFF80, 0x80, 0, 0) ].
  unfold covering, GBView.perform_get_start, GBView.perform_get_length.
  cbn [List.filter in_segment].
  destruct (address_region addr) as [Hr | Hr]; repeat destruct Hr as [Hr | Hr];
    decide_comparisons; reflexivity.
Qed.

Lemma segments_tile_address_space_witness :
  covering 0xFF40 (segments_of init_calls) = 1%nat.
Proof.
  apply (segments_tile_address_space false example_rom example_attributes
           init_calls 0xFF40).
  reflexivity.
Defined.

(** X20: [perform_is_valid_offset] accepts exactly the addresses of the
    segments that are backed by the file, and those segments map the file
    to the same addresses: each starts at its file offset and is as long as
    its data. *)
Theorem valid_offset_iff_file_backed (big_endian : bool) (raw : list byte)
    (h : GBView.header) (calls : list GBView.host_call) (addr : Z) :
  GBView.init_try big_endian raw = Ok (h, calls) ->
  GBView.perform_is_valid_offset addr =
    existsb (fun seg => file_backed seg && in_segment addr seg)
      (segments_of calls) ∧
  Forall (fun seg => let '(s, l, o, d) := seg in
                     file_backed seg = true -> o = s ∧ d = l)
    (segments_of calls).
Proof.
  intros H. destruct (init_try_ok_calls _ _ _ _ H) as [-> _].
  change (segments_of init_calls) with
    [ (0, 0x4000, 0, 0x4000); (0x4000, 0x4000, 0x4000, 0x4000);
      (0x8000, 0x2000, 0, 0); (0xA000, 0x2000, 0, 0); (0xC000, 0x2000, 0, 0);
      (0xE000, 0x1E00, 0, 0); (0xFE00, 0xA0, 0, 0); (0xFEA0, 0xE0, 0, 0);
      (0xFF80, 0x80, 0, 0) ].
  split.
  - unfold GBView.perform_is_valid_offset.
    cbn [existsb file_backed in_segment]. rewrite Z.geb_leb.
    destruct (address_region addr) as [Hr | Hr]; repeat destruct Hr as [Hr | Hr];
      decide_comparisons; reflexivity.
  - repeat (apply List.Forall_cons;
            [ intros Hb;
              first [split; reflexivity | vm_compute in Hb; discriminate Hb] |]).
    apply List.Forall_nil.
Qed.

Lemma valid_offset_iff_file_backed_witness :
  GBView.perform_is_valid_offset 0x7FFF =
    existsb (fun seg => file_backed seg && in_segment 0x7FFF seg)
      (segments_of init_calls) ∧
  Forall (fun seg => let '(s, l, o, d) := seg in
                     file_backed seg = true -> o = s ∧ d = l)
    (segments_of init_calls).
Proof.
  apply (valid_offset_iff_file_backed false example_rom example_attributes
           init_calls 0x7FFF).
  reflexivity.
Defined.

(** X21: the symbols that [init] defines have pairwise distinct addresses
    and pairwise distinct names, and every data symbol names an address from
    [0xFF00] to [0xFFFF], outside the part of the address space that is
    backed by the file. *)
Theorem symbols_distinct (big_endian : bool) (raw : list byte)
    (h : GBView.header) (calls : list GBView.host_call) :
  GBView.init_try big_endian raw = Ok (h, calls) ->
  NoDup (map (fun s => s.1.2) (symbols_of calls)) ∧
  NoDup (map (fun s => s.2) (symbols_of calls)) ∧
  Forall (fun s => s.1.1 = GBView.DataSymbol ->
                   0xFF00 <= s.1.2 <= 0xFFFF ∧
                   GBView.perform_is_valid_offset s.1.2 = false)
    (symbols_of calls).
Proof.
  intros H. destruct (init_try_ok_calls _ _ _ _ H) as [-> _].
  split; [|split].
  - apply (bool_decide_unpack _). vm_compute. reflexivity.
  - apply (bool_decide_unpack _). vm_compute. reflexivity.
  - apply Forall_forall. intros s Hs.
    assert (Hall : forallb
              (fun s : GBView.SymbolType * Z * string =>
                 match s.1.1 with
                 | GBView.DataSymbol =>
                   (0xFF00 <=? s.1.2) && (s.1.2 <=? 0xFFFF) &&
                   negb (GBView.perform_is_valid_offset s.1.2)
                 | GBView.FunctionSymbol => true
                 end) (symbols_of init_calls) = true)
      by (vm_compute; reflexivity).
    rewrite forallb_forall in Hall. specialize (Hall s).
    rewrite <- list_elem_of_In in Hall. specialize (Hall Hs).
    intros Hd. rewrite Hd in Hall.
    apply andb_true_iff in Hall as [Hr Hv].
    apply andb_true_iff in Hr as [H1 H2].
    apply negb_true_iff in Hv. split; [lia | exact Hv].
Qed.

Lemma symbols_distinct_witness :
  NoDup (map (fun s : GBView.SymbolType * Z * string => s.1.2)
           (symbols_of init_calls)).
Proof.
  apply (symbols_distinct false example_rom example_attributes init_calls).
  reflexivity.
Defined.

(** X22: the entry point that [init] registers is the address that
    [perform_get_entry_point] reports; it carries the function symbol
    [_start], the only function symbol, and it is a valid offset. *)
Theorem entry_point_registered (big_endian : bool) (raw : list byte)
    (h : GBView.header) (calls : list GBView.host_call) :
  GBView.init_try big_endian raw = Ok (h, calls) ->
  (∀ a, GBView.add_entry_point a ∈ calls <->
        a = GBView.perform_get_entry_point) ∧
  (∀ a n, (GBView.FunctionSymbol, a, n) ∈ symbols_of calls <->
          a = GBView.perform_get_entry_point ∧ n = "_start") ∧
  GBView.perform_is_valid_offset GBView.perform_get_entry_point = true.
Proof.
  intros H. destruct (init_try_ok_calls _ _ _ _ H) as [-> _].
  split; [|split; [|reflexivity]].
  - intros a. unfold init_calls. rewrite !elem_of_app. split.
    + intros [Hc | [Hc | [Hc | Hc]]].
      * unfold GBView.rom_mappings in Hc.
        repeat (apply elem_of_cons in Hc as [Hc|Hc]; [discriminate Hc|]).
        inversion Hc.
      * unfold GBView.ram_mappings in Hc.
        repeat (apply elem_of_cons in Hc as [Hc|Hc]; [discriminate Hc|]).
        inversion Hc.
      * apply list_elem_of_fmap in Hc as (r & Hr & _). discriminate Hr.
      * unfold GBView.entrypoint in Hc.
        apply elem_of_cons in Hc as [Hc|Hc]; [discriminate Hc|].
        apply elem_of_cons in Hc as [Hc|Hc]; [|inversion Hc].
        injection Hc as ->. reflexivity.
    + intros ->. right; right; right.
      unfold GBView.entrypoint. apply elem_of_cons. right.
      apply elem_of_cons. left. reflexivity.
  - intros a n.
    assert (Hsym : symbols_of init_calls =
              (map (fun r => (GBView.DataSymbol, r.1, r.2))
                 GBView.special_registers ++
               [(GBView.FunctionSymbol, GBView.START_ADDR, "_start")])%list)
      by reflexivity.
    rewrite Hsym, elem_of_app. split.
    + intros [Hc | Hc].
      * apply list_elem_of_fmap in Hc as (r & Hr & _). discriminate Hr.
      * apply elem_of_cons in Hc as [Hc|Hc]; [|inversion Hc].
        injection Hc as -> ->. split; reflexivity.
    + intros [-> ->]. right. apply elem_of_cons. left. reflexivity.
Qed.

Lemma entry_point_registered_witness :
  GBView.perform_is_valid_offset GBView.perform_get_entry_point = true.
Proof.
  apply (entry_point_registered false example_rom example_attributes
           init_calls).
  reflexivity.
Defined.
